(** * ai-trading-agent: the daily analysis pipeline and the read API

    A shallow embedding of [daily_analysis.py] and [api_server.py].

    Python [str] values are modelled by [string] (the UTF-8 bytes of the
    text); the characters the program inspects (braces, commas, ASCII
    letters and white space) are single bytes that never occur inside a
    multi-byte sequence.  Everything outside the process (the news
    provider, the model provider, the datastore's failures and the clock)
    is an oracle of the environment, indexed by the number of outbound
    calls made so far, so that theorems hold for every behaviour of the
    collaborators. *)

From Stdlib Require Import String Ascii List Bool Arith ZArith Lia.
From Stdlib Require Import Sorting.Sorted Sorting.Permutation.
Import ListNotations.

Local Open Scope string_scope.

(** ** Python [str] operations used by the program *)

(** Upper case and white space are those of ASCII. *)

Module Str.

Definition is_space (c : ascii) : bool :=
  let n := nat_of_ascii c in
  (((9 <=? n) && (n <=? 13)) || ((28 <=? n) && (n <=? 32)))%nat.

Definition upper_char (c : ascii) : ascii :=
  let n := nat_of_ascii c in
  if ((97 <=? n) && (n <=? 122))%nat then ascii_of_nat (n - 32) else c.

(** [s.upper()] on ASCII letters. *)
Fixpoint upper (s : string) : string :=
  match s with
  | EmptyString => EmptyString
  | String c s' => String (upper_char c) (upper s')
  end.

Fixpoint lstrip (s : string) : string :=
  match s with
  | EmptyString => EmptyString
  | String c s' => if is_space c then lstrip s' else s
  end.

(** Drops trailing white space: a character is kept when it is not white
    space or when something is kept after it. *)
Fixpoint rstrip (s : string) : string :=
  match s with
  | EmptyString => EmptyString
  | String c s' =>
      match rstrip s' with
      | EmptyString => if is_space c then EmptyString else String c EmptyString
      | r => String c r
      end
  end.

(** [s.strip()] *)
Definition strip (s : string) : string := rstrip (lstrip s).

(** [s.split(sep)] for a one-character separator: the fields between the
    separators, the empty string giving one empty field. *)
Fixpoint split (sep : ascii) (s : string) : list string :=
  match s with
  | EmptyString => [EmptyString]
  | String c s' =>
      if Ascii.eqb c sep then EmptyString :: split sep s'
      else match split sep s' with
           | [] => [String c EmptyString]
           | f :: fs => String c f :: fs
           end
  end.

(** [sep.join(parts)] *)
Fixpoint join (sep : string) (parts : list string) : string :=
  match parts with
  | [] => EmptyString
  | [p] => p
  | p :: ps => p ++ sep ++ join sep ps
  end.

(** [s[:n]] *)
Definition take (n : nat) (s : string) : string := substring 0 n s.

(** [sub in s] *)
Fixpoint contains (sub s : string) : bool :=
  prefix sub s ||
  match s with
  | EmptyString => false
  | String _ s' => contains sub s'
  end.

Definition is_empty (s : string) : bool :=
  match s with EmptyString => true | _ => false end.

End Str.

(** ** JSON values and Python's [json.loads]

    A number is kept as the literal it was written with: the program
    does no arithmetic, it only converts and prints numbers.  A Python
    [dict] is the list of its items in insertion order. *)

Module Json.

#[warning="-register-all"]
Inductive value : Type :=
| JNull
| JBool (b : bool)
| JNumber (lit : string)
| JString (s : string)
| JArray (items : list value)
| JObject (members : list (string * value)).

(** [d.get(k)] *)
Fixpoint lookup (k : string) (m : list (string * value)) : option value :=
  match m with
  | [] => None
  | (k', v) :: m' => if String.eqb k k' then Some v else lookup k m'
  end.

(** [d[k] = v]: a key already present keeps its place. *)
Fixpoint dict_set (k : string) (v : value) (m : list (string * value))
  : list (string * value) :=
  match m with
  | [] => [(k, v)]
  | (k', v') :: m' =>
      if String.eqb k k' then (k, v) :: m' else (k', v') :: dict_set k v m'
  end.

Definition dquote : ascii := ascii_of_nat 34.
Definition backslash : ascii := ascii_of_nat 92.

Definition is_ws (c : ascii) : bool :=
  let n := nat_of_ascii c in
  ((n =? 32) || (n =? 9) || (n =? 10) || (n =? 13))%nat.

Fixpoint skip_ws (s : string) : string :=
  match s with
  | EmptyString => EmptyString
  | String c s' => if is_ws c then skip_ws s' else s
  end.

Definition is_digit (c : ascii) : bool :=
  let n := nat_of_ascii c in ((48 <=? n) && (n <=? 57))%nat.

(** The longest run of digits at the head, and what follows it. *)
Fixpoint span_digits (s : string) : string * string :=
  match s with
  | EmptyString => (EmptyString, EmptyString)
  | String c s' =>
      if is_digit c
      then let (ds, r) := span_digits s' in (String c ds, r)
      else (EmptyString, s)
  end.

(** The integer part of a number: an optional minus sign, then a zero or
    a nonzero digit followed by digits. *)
Definition scan_int (s : string) : option (string * string) :=
  let (sign, s1) :=
    match s with
    | String c s' => if (c =? "-")%char then ("-", s') else ("", s)
    | EmptyString => ("", s)
    end in
  match s1 with
  | EmptyString => None
  | String c s2 =>
      if (c =? "0")%char then Some (sign ++ "0", s2)
      else if is_digit c
           then let (ds, r) := span_digits s2 in Some (sign ++ String c ds, r)
           else None
  end.

(** The optional fraction, a dot and at least one digit. *)
Definition scan_frac (s : string) : string * string :=
  match s with
  | String c s1 =>
      if (c =? ".")%char then
        match span_digits s1 with
        | (EmptyString, _) => ("", s)
        | (ds, r) => (String c ds, r)
        end
      else ("", s)
  | EmptyString => ("", s)
  end.

(** The optional exponent: [e] or [E], an optional sign, and at least one
    digit. *)
Definition scan_exp (s : string) : string * string :=
  match s with
  | String c s1 =>
      if ((c =? "e") || (c =? "E"))%char then
        let (sign, s2) :=
          match s1 with
          | String d s' =>
              if ((d =? "+") || (d =? "-"))%char
              then (String d "", s') else ("", s1)
          | EmptyString => ("", s1)
          end in
        match span_digits s2 with
        | (EmptyString, _) => ("", s)
        | (ds, r) => (String c (sign ++ ds), r)
        end
      else ("", s)
  | EmptyString => ("", s)
  end.

Definition scan_number (s : string) : option (string * string) :=
  match scan_int s with
  | None => None
  | Some (i, r) =>
      let (f, r1) := scan_frac r in
      let (e, r2) := scan_exp r1 in
      Some (i ++ f ++ e, r2)
  end.

(** A literal without fraction and exponent is an integer. *)
Fixpoint is_integer (lit : string) : bool :=
  match lit with
  | EmptyString => true
  | String c lit' => (is_digit c || (c =? "-")%char) && is_integer lit'
  end.

Fixpoint count_digits (lit : string) : nat :=
  match lit with
  | EmptyString => 0
  | String c lit' =>
      (if is_digit c then 1 else 0) + count_digits lit'
  end.

(** The conversion of an integer literal raises a [ValueError] beyond
    the interpreter's default limit of 4300 digits. *)
Definition too_many_digits (lit : string) : bool :=
  is_integer lit && (4300 <? count_digits lit)%nat.

Definition hex_digit (c : ascii) : option N :=
  let n := N_of_ascii c in
  (if (48 <=? n) && (n <=? 57) then Some (n - 48)
   else if (65 <=? n) && (n <=? 70) then Some (n - 55)
   else if (97 <=? n) && (n <=? 102) then Some (n - 87)
   else None)%N.

Definition hex4 (a b c d : ascii) : option N :=
  match hex_digit a, hex_digit b, hex_digit c, hex_digit d with
  | Some x, Some y, Some z, Some w => Some (((x * 16 + y) * 16 + z) * 16 + w)%N
  | _, _, _, _ => None
  end.

(** The UTF-8 bytes of a code point (a lone surrogate gets the three
    bytes the general scheme gives it). *)
Definition utf8 (u : N) : string :=
  let byte (n : N) := ascii_of_N n in
  let cont (n : N) := ascii_of_N (128 + n mod 64) in
  (if u <? 128 then String (byte u) ""
   else if u <? 2048 then String (byte (192 + u / 64)) (String (cont u) "")
   else if u <? 65536 then
     String (byte (224 + u / 4096))
       (String (cont (u / 64)) (String (cont u) ""))
   else
     String (byte (240 + u / 262144))
       (String (cont (u / 4096))
          (String (cont (u / 64)) (String (cont u) ""))))%N.

Definition is_high (u : N) : bool := ((55296 <=? u) && (u <=? 56319))%N.
Definition is_low (u : N) : bool := ((56320 <=? u) && (u <=? 57343))%N.
Definition pair_point (hi lo : N) : N :=
  (65536 + (hi - 55296) * 1024 + (lo - 56320))%N.

Definition unescape (e : ascii) : option ascii :=
  if ((e =? dquote) || (e =? backslash) || (e =? "/"))%char then Some e
  else if (e =? "b")%char then Some (ascii_of_nat 8)
  else if (e =? "f")%char then Some (ascii_of_nat 12)
  else if (e =? "n")%char then Some (ascii_of_nat 10)
  else if (e =? "r")%char then Some (ascii_of_nat 13)
  else if (e =? "t")%char then Some (ascii_of_nat 9)
  else None.

Definition push (pre : string) (r : option (string * string))
  : option (string * string) :=
  match r with
  | Some (body, rest) => Some (pre ++ body, rest)
  | None => None
  end.

(** The text after an opening quote, in strict mode: the decoded
    contents up to the closing quote, and what follows it. *)
Fixpoint scan_string (s : string) : option (string * string) :=
  match s with
  | EmptyString => None
  | String c s1 =>
      if (c =? dquote)%char then Some ("", s1)
      else if (c =? backslash)%char then
        match s1 with
        | EmptyString => None
        | String e s2 =>
            if (e =? "u")%char then
              match s2 with
              | String h1 (String h2 (String h3 (String h4 s3))) =>
                  match hex4 h1 h2 h3 h4 with
                  | None => None
                  | Some u =>
                      let single := push (utf8 u) (scan_string s3) in
                      if is_high u then
                        match s3 with
                        | String b (String v (String g1 (String g2
                            (String g3 (String g4 s4))))) =>
                            if ((b =? backslash) && (v =? "u"))%char then
                              match hex4 g1 g2 g3 g4 with
                              | None => None
                              | Some u2 =>
                                  if is_low u2
                                  then push (utf8 (pair_point u u2))
                                         (scan_string s4)
                                  else single
                              end
                            else single
                        | _ => single
                        end
                      else single
                  end
              | _ => None
              end
            else
              match unescape e with
              | Some x => push (String x "") (scan_string s2)
              | None => None
              end
        end
      else if (nat_of_ascii c <? 32)%nat then None
      else push (String c "") (scan_string s1)
  end.

Fixpoint drop (n : nat) (s : string) : string :=
  match n, s with
  | O, _ => s
  | S n', String _ s' => drop n' s'
  | S _, EmptyString => EmptyString
  end.

(** A word of the grammar at the head of the text. *)
Definition keyword (w : string) (v : value) (s : string)
  : option (value * string) :=
  if prefix w s then Some (v, drop (String.length w) s) else None.

Definition or_else {A : Type} (a b : option A) : option A :=
  match a with Some _ => a | None => b end.

(** [scan_once]: one value at the head of the text and what follows it.
    [parse_items] reads the elements of an array after its bracket,
    [parse_members] the members of an object from the quote of a key.
    Each call uses one unit of [fuel]. *)
Fixpoint scan_once (fuel : nat) (s : string) {struct fuel}
  : option (value * string) :=
  match fuel with
  | O => None
  | S f =>
      match s with
      | EmptyString => None
      | String c s1 =>
          if (c =? dquote)%char then
            match scan_string s1 with
            | Some (str, r) => Some (JString str, r)
            | None => None
            end
          else if (c =? "{")%char then
            match skip_ws s1 with
            | String d r =>
                if (d =? "}")%char then Some (JObject [], r)
                else parse_members f (String d r) []
            | EmptyString => None
            end
          else if (c =? "[")%char then
            match skip_ws s1 with
            | String d r =>
                if (d =? "]")%char then Some (JArray [], r)
                else parse_items f (String d r) []
            | EmptyString => None
            end
          else
            or_else (keyword "null" JNull s)
           (or_else (keyword "true" (JBool true) s)
           (or_else (keyword "false" (JBool false) s)
           (match scan_number s with
            | Some (lit, r) =>
                if too_many_digits lit then None else Some (JNumber lit, r)
            | None =>
                or_else (keyword "NaN" (JNumber "NaN") s)
               (or_else (keyword "Infinity" (JNumber "Infinity") s)
                        (keyword "-Infinity" (JNumber "-Infinity") s))
            end)))
      end
  end

with parse_items (fuel : nat) (s : string) (acc : list value) {struct fuel}
  : option (value * string) :=
  match fuel with
  | O => None
  | S f =>
      match scan_once f s with
      | None => None
      | Some (v, r) =>
          match skip_ws r with
          | String c r1 =>
              if (c =? "]")%char then Some (JArray (rev (v :: acc)), r1)
              else if (c =? ",")%char
                   then parse_items f (skip_ws r1) (v :: acc)
                   else None
          | EmptyString => None
          end
      end
  end

with parse_members (fuel : nat) (s : string) (acc : list (string * value))
  {struct fuel} : option (value * string) :=
  match fuel with
  | O => None
  | S f =>
      match s with
      | EmptyString => None
      | String q s1 =>
          if (q =? dquote)%char then
            match scan_string s1 with
            | None => None
            | Some (key, r) =>
                match skip_ws r with
                | String c r1 =>
                    if (c =? ":")%char then
                      match scan_once f (skip_ws r1) with
                      | None => None
                      | Some (v, r2) =>
                          match skip_ws r2 with
                          | String d r3 =>
                              if (d =? "}")%char
                              then Some (JObject (dict_set key v acc), r3)
                              else if (d =? ",")%char
                                   then parse_members f (skip_ws r3)
                                          (dict_set key v acc)
                                   else None
                          | EmptyString => None
                          end
                      end
                    else None
                | EmptyString => None
                end
            end
          else None
      end
  end.

(** [json.loads(s)]: white space, one value, white space, and nothing
    else; [None] stands for the exception it raises.  A call on a text of
    [n] characters is followed by calls on shorter texts only, except
    that the element loop of an array reads its first element from the
    text it was given: [2 * n + 2] units of fuel are enough (lemma
    [loads_fuel]).  The depth of nesting is not bounded: the recursion
    limit of the interpreter is outside the model. *)
Definition loads (s : string) : option value :=
  match scan_once (2 * String.length s + 2) (skip_ws s) with
  | Some (v, r) =>
      match skip_ws r with
      | EmptyString => Some v
      | String _ _ => None
      end
  | None => None
  end.

End Json.

(** ** The fragment of Python's [re] the program uses

    Patterns built from a literal character, a negated character class,
    concatenation and the greedy star, matched by backtracking the way
    [re] does: a star first tries one more iteration and falls back to
    leaving the loop. *)

Module Re.

Inductive regex : Type :=
| Chr (c : ascii)
| NoneOf (cs : list ascii)
| Cat (r1 r2 : regex)
| Star (r : regex).

Definition mem (c : ascii) (cs : list ascii) : bool :=
  existsb (Ascii.eqb c) cs.

(** The greedy loop of a star.  [step s k] matches the body at the head
    of [s] and hands the rest to [k].  The loop first tries the body once
    more, and leaves when that fails; an iteration has to consume
    something, so [n] at least the length of [s] bounds the iterations. *)
Fixpoint star_loop {A : Type}
  (step : string -> (string -> option A) -> option A)
  (k : string -> option A) (n : nat) (s : string) {struct n} : option A :=
  match n with
  | O => k s
  | S n' =>
      match step s (fun s' =>
              if (String.length s' <? String.length s)%nat
              then star_loop step k n' s' else None) with
      | Some x => Some x
      | None => k s
      end
  end.

(** [bt r s k] matches [r] at the head of [s] and hands the rest of the
    text to the continuation [k]; the first success in backtracking
    order is the answer. *)
Fixpoint bt {A : Type} (r : regex) (s : string) (k : string -> option A)
  {struct r} : option A :=
  match r with
  | Chr c =>
      match s with
      | String c' s' => if Ascii.eqb c' c then k s' else None
      | EmptyString => None
      end
  | NoneOf cs =>
      match s with
      | String c' s' => if mem c' cs then None else k s'
      | EmptyString => None
      end
  | Cat r1 r2 => bt r1 s (fun s' => bt r2 s' k)
  | Star r1 => star_loop (bt r1) k (String.length s) s
  end.

(** The match of [r] at the head of [s]: [m.group()]. *)
Definition match_here (r : regex) (s : string) : option string :=
  bt r s (fun rest =>
            Some (substring 0 (String.length s - String.length rest) s)).

(** [re.search(r, s)]: the match at the leftmost position that has one. *)
Fixpoint search (r : regex) (s : string) : option string :=
  match match_here r s with
  | Some m => Some m
  | None =>
      match s with
      | EmptyString => None
      | String _ s' => search r s'
      end
  end.

End Re.

Definition lbrace : ascii := "{"%char.
Definition rbrace : ascii := "}"%char.

(** [[^{}]*] *)
Definition plain : Re.regex := Re.Star (Re.NoneOf [lbrace; rbrace]).

(** The pattern of [analyze_with_claude], written here with spaces
    between its parts:
    [\{ [^{}]* (?: \{ [^{}]* \} [^{}]* )* \}] *)
Definition json_pattern : Re.regex :=
  Re.Cat (Re.Chr lbrace)
    (Re.Cat plain
       (Re.Cat
          (Re.Star
             (Re.Cat (Re.Chr lbrace)
                (Re.Cat plain (Re.Cat (Re.Chr rbrace) plain))))
          (Re.Chr rbrace))).

(** The double quote, and a text between double quotes. *)
Definition dquote : ascii := ascii_of_nat 34.
Definition quoted (s : string) : string :=
  String dquote (s ++ String dquote EmptyString).

(** The line feed. *)
Definition nl : string := String (ascii_of_nat 10) EmptyString.

(** ** Python values of the program *)

Import Json.

(** A Python [float], kept as the literal it was converted from. *)
Definition pyfloat : Type := string.

(** The text after a digit of a digit part: digits, each possibly
    preceded by one underscore. *)
Fixpoint digit_tail (s : string) : string :=
  match s with
  | EmptyString => EmptyString
  | String c s' =>
      if is_digit c then digit_tail s'
      else if (c =? "_")%char then
        match s' with
        | String d s'' => if is_digit d then digit_tail s'' else s
        | EmptyString => s
        end
      else s
  end.

Definition digit_part (s : string) : option string :=
  match s with
  | String c s' => if is_digit c then Some (digit_tail s') else None
  | EmptyString => None
  end.

(** An exponent, if the text starts with [e] or [E]. *)
Definition float_exponent (s : string) : option string :=
  match s with
  | String c s1 =>
      if ((c =? "e") || (c =? "E"))%char then
        match s1 with
        | String d s2 =>
            if ((d =? "+") || (d =? "-"))%char then digit_part s2
            else digit_part s1
        | EmptyString => None
        end
      else Some s
  | EmptyString => Some s
  end.

(** The unsigned number of a [float] text: digits with an optional
    fraction, or a dot and digits, then an optional exponent, and nothing
    after it. *)
Definition float_number (s : string) : bool :=
  let ends (r : option string) :=
    match r with
    | Some r1 =>
        match float_exponent r1 with
        | Some EmptyString => true
        | _ => false
        end
    | None => false
    end in
  match s with
  | String c s1 =>
      if (c =? ".")%char then ends (digit_part s1)
      else
        match digit_part s with
        | Some (String d r) =>
            if (d =? ".")%char then
              match digit_part r with
              | Some r1 => ends (Some r1)
              | None => ends (Some r)
              end
            else ends (Some (String d r))
        | Some EmptyString => true
        | None => false
        end
  | EmptyString => false
  end.

(** The texts [float(s)] accepts, white space stripped. *)
Definition float_text (s : string) : bool :=
  let body :=
    match s with
    | String c s' => if ((c =? "+") || (c =? "-"))%char then s' else s
    | EmptyString => s
    end in
  let u := Str.upper body in
  String.eqb u "INF" || String.eqb u "INFINITY" || String.eqb u "NAN"
  || float_number body.

(** The value of an integer literal. *)
Fixpoint digits_value (acc : Z) (s : string) : Z :=
  match s with
  | EmptyString => acc
  | String c s' =>
      digits_value (10 * acc + Z.of_nat (nat_of_ascii c - 48)) s'
  end.

Definition integer_value (lit : string) : Z :=
  match lit with
  | String c lit' =>
      if (c =? "-")%char then (- digits_value 0 lit')%Z
      else digits_value 0 lit
  | EmptyString => 0%Z
  end.

(** An integer overflows a float when it rounds to 2^1024, that is from
    2^1024 - 2^970 on. *)
Definition overflows (lit : string) : bool :=
  is_integer lit && (2 ^ 1024 - 2 ^ 970 <=? Z.abs (integer_value lit))%Z.

(** [float(v)]; [None] stands for the [TypeError], [ValueError] or
    [OverflowError]. *)
Definition py_float (v : value) : option pyfloat :=
  match v with
  | JNumber lit => if overflows lit then None else Some lit
  | JBool b => Some (if b then "1" else "0")
  | JString s =>
      let t := Str.strip s in if float_text t then Some t else None
  | JNull | JArray _ | JObject _ => None
  end.

(** The truth value of a Python value, as [if v:] takes it.  A number is
    false when it is a zero: its digits are all zeros up to the
    exponent. *)
Fixpoint zero_digits (s : string) : bool :=
  match s with
  | EmptyString => true
  | String c s' =>
      if ((c =? "e") || (c =? "E"))%char then true
      else ((c =? "0") || (c =? ".") || (c =? "-"))%char && zero_digits s'
  end.

Definition truthy (v : value) : bool :=
  match v with
  | JNull => false
  | JBool b => b
  | JNumber lit => negb (zero_digits lit)
  | JString s => negb (Str.is_empty s)
  | JArray l => match l with [] => false | _ => true end
  | JObject m => match m with [] => false | _ => true end
  end.

(** [d.get(k, default)] *)
Definition get_default (k : string) (default : value)
  (m : list (string * value)) : value :=
  match lookup k m with
  | Some v => v
  | None => default
  end.

(** ** The environment

    A row of the [predictions] table, with the columns of the data
    model. *)

Record Row : Type := {
  row_ticker : string;
  row_signal : string;
  row_confidence : pyfloat;
  row_reasoning : string;
  row_key_factors : option value;
  row_risks : option value;
  row_created_at : string
}.

(** The record [store_prediction] sends to the table. *)
Record InsertData : Type := {
  d_ticker : string;
  d_signal : value;
  d_confidence : pyfloat;
  d_reasoning : value;
  d_key_factors : value;
  d_risks : value;
  d_created_at : string
}.

(** What the process does not decide.  The first argument of an oracle is
    the number of outbound calls made before the one it answers. *)
Record Env : Type := {
  (** [requests.get(...).json()] of the news provider for a ticker;
      [None] when the call or the decoding raises (time-out included). *)
  news_api : nat -> string -> option value;
  (** [requests.post(...)], [raise_for_status()] and [.json()] of the
      model provider for a prompt; [None] when one of them raises. *)
  model_api : nat -> string -> option value;
  (** The message of the exception a query of the table ends with, if
      it does. *)
  db_select_error : nat -> option string;
  (** The row an insert stores; [None] when the insert raises. *)
  db_insert : nat -> InsertData -> option Row;
  (** [datetime.now().isoformat()] *)
  now : nat -> string;
  (** [str(v)] of a value that is not a string. *)
  str_value : value -> string;
  (** [str(x)] and [format(x, '.2f')] of a float. *)
  str_float : pyfloat -> string;
  format_2f : pyfloat -> string
}.

(** The state the calls thread: the table and the count of calls. *)
Record State : Type := {
  table : list Row;
  clock : nat
}.

Definition tick (st : State) : State :=
  {| table := table st; clock := S (clock st) |}.

(** A call that returns or raises. *)
Inductive outcome (E A : Type) : Type :=
| Return (a : A)
| Raise (e : E).
Arguments Return {E A} a.
Arguments Raise {E A} e.

(** *** The datastore *)

(** [created_at] of [a] is not before that of [b]. *)
Definition newer_eq (a b : Row) : bool :=
  (row_created_at b <=? row_created_at a)%string.

Fixpoint insert_desc (r : Row) (l : list Row) : list Row :=
  match l with
  | [] => [r]
  | x :: l' => if newer_eq r x then r :: l else x :: insert_desc r l'
  end.

(** [.order(created_at, desc=True)].  The datastore is free in the order
    of rows with equal [created_at]; this sort puts them in one order,
    and no statement below depends on which. *)
Fixpoint order_desc (l : list Row) : list Row :=
  match l with
  | [] => []
  | r :: l' => insert_desc r (order_desc l')
  end.

(** The query [eq(ticker, t).order(created_at, desc=True).limit(n)] over
    all columns, on the rows of the table. *)
Definition select_rows (t : list Row) (ticker : string) (n : nat)
  : list Row :=
  firstn n
    (order_desc (filter (fun r => String.eqb (row_ticker r) ticker) t)).

(** [.execute()] of that query: one outbound call.  It raises when the
    datastore fails, and the datastore refuses a negative limit. *)
Definition db_select (env : Env) (st : State) (ticker : string) (limit : Z)
  : outcome string (list Row) * State :=
  (match db_select_error env (clock st) with
   | Some msg => Raise msg
   | None =>
       if (limit <? 0)%Z then Raise "Requested range not satisfiable"
       else Return (select_rows (table st) ticker (Z.to_nat limit))
   end, tick st).

(** ** daily_analysis.py *)

(** An article as [fetch_news] builds it. *)
Record Article : Type := {
  a_title : value;
  a_summary : value;
  a_source : value;
  a_sentiment : pyfloat;
  a_time : value
}.

(** The body of the loop of [fetch_news] for one item of the feed;
    [None] when it raises: the item is no object, or its score does not
    convert to a float. *)
Definition article_of (item : value) : option Article :=
  match item with
  | JObject m =>
      match py_float (get_default "overall_sentiment_score" (JNumber "0") m)
      with
      | Some x =>
          Some {| a_title := get_default "title" (JString "") m;
                  a_summary := get_default "summary" (JString "") m;
                  a_source := get_default "source" (JString "") m;
                  a_sentiment := x;
                  a_time := get_default "time_published" (JString "") m |}
      | None => None
      end
  | _ => None
  end.

Fixpoint articles_of (items : list value) : option (list Article) :=
  match items with
  | [] => Some []
  | item :: rest =>
      match article_of item with
      | None => None
      | Some a =>
          match articles_of rest with
          | None => None
          | Some l => Some (a :: l)
          end
      end
  end.

(** [fetch_news]: one outbound call.  Every exception ends in the empty
    list: the call raises, the data is no object (the membership test or
    [data.get] raises, or the test fails), the feed is no list (slicing
    or [item.get] raises; the empty string gives no item), or an item
    raises. *)
Definition fetch_news (env : Env) (st : State) (ticker : string)
  : list Article * State :=
  (match news_api env (clock st) ticker with
   | None => []
   | Some (JObject m) =>
       match lookup "feed" m with
       | None => []
       | Some (JArray feed) =>
           match articles_of (firstn 10 feed) with
           | Some articles => articles
           | None => []
           end
       | Some _ => []
       end
   | Some _ => []
   end, tick st).

(** [get_historical_predictions]: the rows of the query, the empty list
    when it raises. *)
Definition get_historical_predictions (env : Env) (st : State)
  (ticker : string) (limit : Z) : list Row * State :=
  let (r, st') := db_select env st ticker limit in
  (match r with
   | Return data => data
   | Raise _ => []
   end, st').

(** A value inside an f-string. *)
Definition py_str (env : Env) (v : value) : string :=
  match v with
  | JString s => s
  | _ => str_value env v
  end.

Definition news_line (env : Env) (n : Article) : string :=
  "- " ++ py_str env (a_title n)
  ++ " (sentiment: " ++ format_2f env (a_sentiment n)
  ++ ", source: " ++ py_str env (a_source n) ++ ")".

Definition news_text (env : Env) (news : list Article) : string :=
  let t := Str.join nl (map (news_line env) news) in
  if Str.is_empty t then "No recent news available" else t.

Definition historical_line (env : Env) (h : Row) : string :=
  "- " ++ Str.take 10 (row_created_at h) ++ ": " ++ row_signal h
  ++ " (confidence: " ++ str_float env (row_confidence h) ++ ") - "
  ++ Str.take 80 (row_reasoning h) ++ "...".

Definition historical_text (env : Env) (historical : list Row) : string :=
  match historical with
  | [] => "No historical predictions yet"
  | _ => Str.join nl (map (historical_line env) historical)
  end.

(** The lines of the prompt after the two sections. *)
Definition prompt_tail : string :=
  "Based on this information, provide a trading recommendation." ++ nl
  ++ nl
  ++ "Consider:" ++ nl
  ++ "1. News sentiment and credibility" ++ nl
  ++ "2. Historical patterns (if available)" ++ nl
  ++ "3. Potential risks and opportunities" ++ nl
  ++ "4. Market context" ++ nl
  ++ nl
  ++ "Respond in this EXACT JSON format (no extra text):" ++ nl
  ++ "{" ++ nl
  ++ "  " ++ quoted "signal" ++ ": " ++ quoted "BUY" ++ " or "
  ++ quoted "SELL" ++ " or " ++ quoted "HOLD" ++ "," ++ nl
  ++ "  " ++ quoted "confidence" ++ ": 0.75," ++ nl
  ++ "  " ++ quoted "reasoning" ++ ": "
  ++ quoted "Clear 2-3 sentence explanation of why this signal" ++ ","
  ++ nl
  ++ "  " ++ quoted "key_factors" ++ ": [" ++ quoted "factor1" ++ ", "
  ++ quoted "factor2" ++ ", " ++ quoted "factor3" ++ "]," ++ nl
  ++ "  " ++ quoted "risks" ++ ": [" ++ quoted "risk1" ++ ", "
  ++ quoted "risk2" ++ "]," ++ nl
  ++ "  " ++ quoted "timeframe" ++ ": " ++ quoted "short-term (1-5 days)"
  ++ nl
  ++ "}".

Definition news_header : string := "RECENT NEWS (Last 24-48 hours):".
Definition history_header : string := "PREVIOUS PREDICTIONS:".

(** The prompt of [analyze_with_claude]. *)
Definition prompt (env : Env) (ticker : string) (news : list Article)
  (historical : list Row) : string :=
  "Analyze " ++ ticker ++ " for a trading decision." ++ nl
  ++ nl
  ++ news_header ++ nl
  ++ news_text env news ++ nl
  ++ nl
  ++ history_header ++ nl
  ++ historical_text env historical ++ nl
  ++ nl
  ++ prompt_tail.

(** [v[k]] for a string key; [None] when it raises. *)
Definition subscript (v : value) (k : string) : option value :=
  match v with
  | JObject m => lookup k m
  | _ => None
  end.

(** [result[content][0][text]], which has to be a string for
    [re.search]; [None] when a subscript or the search raises. *)
Definition response_text (result : value) : option string :=
  match subscript result "content" with
  | Some (JArray (first :: _)) =>
      match subscript first "text" with
      | Some (JString text) => Some text
      | _ => None
      end
  | _ => None
  end.

(** A text the console can encode.  [print] writes UTF-8 and raises a
    [UnicodeEncodeError] on a surrogate code point, which a JSON escape
    that is not half of a pair leaves in a string.  In the bytes of the
    model a surrogate is the three bytes the general scheme gives it
    (see [Json.utf8]): the byte 237 followed by a byte from 160 to 191,
    which no other character produces. *)
Fixpoint encodable (s : string) : bool :=
  match s with
  | EmptyString => true
  | String c s' =>
      match s' with
      | EmptyString => true
      | String d _ =>
          negb ((nat_of_ascii c =? 237)%nat
                && (160 <=? nat_of_ascii d)%nat
                && (nat_of_ascii d <=? 191)%nat)
          && encodable s'
      end
  end.

(** A value inside the f-string of a [print]: a string is written as it
    is; a number, a list or a dict is written through [repr], which
    escapes what cannot be printed. *)
Definition printable (v : value) : bool :=
  match v with
  | JString s => encodable s
  | JNull | JBool _ | JNumber _ | JArray _ | JObject _ => true
  end.

(** The diagnostic line of [analyze_with_claude], which prints the
    signal and the confidence of the record: it raises when the record
    is no dict or lacks one of the two keys, and when one of the two is
    a string the console cannot encode. *)
Definition diagnostic_prints (prediction : value) : bool :=
  match subscript prediction "signal",
        subscript prediction "confidence" with
  | Some s, Some c => printable s && printable c
  | _, _ => false
  end.

(** The lines of [analyze_with_claude] from the search to the return,
    under its [except Exception]: no match gives [None]; a match that
    does not decode raises, and so does the diagnostic line. *)
Definition parse_response (text : string) : option value :=
  match Re.search json_pattern text with
  | Some json_match =>
      match loads json_match with
      | Some prediction =>
          if diagnostic_prints prediction then Some prediction else None
      | None => None
      end
  | None => None
  end.

(** [analyze_with_claude]: the history query, then the call of the
    model. *)
Definition analyze_with_claude (env : Env) (st : State) (ticker : string)
  (news : list Article) : option value * State :=
  let (historical, st1) := get_historical_predictions env st ticker 5 in
  (match model_api env (clock st1) (prompt env ticker news historical) with
   | None => None
   | Some result =>
       match response_text result with
       | Some text => parse_response text
       | None => None
       end
   end, tick st1).

(** The record [store_prediction] builds; [None] when a subscript or the
    conversion of the confidence raises. *)
Definition insert_data (env : Env) (st : State) (ticker : string)
  (prediction : value) : option InsertData :=
  match prediction with
  | JObject m =>
      match lookup "signal" m with
      | None => None
      | Some signal =>
          match lookup "confidence" m with
          | None => None
          | Some c =>
              match py_float c with
              | None => None
              | Some confidence =>
                  match lookup "reasoning" m with
                  | None => None
                  | Some reasoning =>
                      Some {| d_ticker := ticker;
                              d_signal := signal;
                              d_confidence := confidence;
                              d_reasoning := reasoning;
                              d_key_factors :=
                                get_default "key_factors" (JArray []) m;
                              d_risks := get_default "risks" (JArray []) m;
                              d_created_at := now env (clock st) |}
                  end
              end
          end
      end
  | _ => None
  end.

(** [store_prediction]: the stored row, [None] when anything raised. *)
Definition store_prediction (env : Env) (st : State) (ticker : string)
  (prediction : value) : option Row * State :=
  match insert_data env st ticker prediction with
  | None => (None, st)
  | Some data =>
      match db_insert env (clock st) data with
      | Some row =>
          (Some row, {| table := table st ++ [row]; clock := S (clock st) |})
      | None => (None, tick st)
      end
  end.

Definition WATCHLIST : list string :=
  ["AAPL"; "MSFT"; "GOOGL"; "NVDA"; "TSLA"].

(** An entry of [results]; [signal] and [confidence] are the keys a
    success entry has and a failure entry lacks. *)
Record SummaryEntry : Type := {
  e_ticker : string;
  e_status : string;
  e_signal : option value;
  e_confidence : option value
}.

(** The loop of [main] over the tickers left, [results] being the
    entries so far.  It raises if a subscript of the prediction does. *)
Fixpoint main_loop (env : Env) (st : State) (results : list SummaryEntry)
  (tickers : list string) : outcome string (list SummaryEntry) * State :=
  match tickers with
  | [] => (Return results, st)
  | ticker :: rest =>
      let (news, st1) := fetch_news env st ticker in
      let (prediction, st2) := analyze_with_claude env st1 ticker news in
      match prediction with
      | Some p =>
          if truthy p then
            let (_, st3) := store_prediction env st2 ticker p in
            match subscript p "signal", subscript p "confidence" with
            | Some s, Some c =>
                main_loop env st3
                  (results ++ [{| e_ticker := ticker;
                                  e_status := "success";
                                  e_signal := Some s;
                                  e_confidence := Some c |}])
                  rest
            | _, _ => (Raise "KeyError", st3)
            end
          else
            main_loop env st2
              (results ++ [{| e_ticker := ticker; e_status := "failed";
                              e_signal := None; e_confidence := None |}])
              rest
      | None =>
          main_loop env st2
            (results ++ [{| e_ticker := ticker; e_status := "failed";
                            e_signal := None; e_confidence := None |}])
            rest
      end
  end.

(** The summary [main] builds over a watchlist. *)
Definition run (env : Env) (st : State) (watchlist : list string)
  : outcome string (list SummaryEntry) * State :=
  main_loop env st [] watchlist.

Definition main (env : Env) (st : State)
  : outcome string (list SummaryEntry) * State :=
  run env st WATCHLIST.

(** ** api_server.py *)

Record HTTPException : Type := {
  status_code : Z;
  detail : string
}.

(** The record [get_prediction] returns. *)
Record Prediction : Type := {
  p_ticker : string;
  p_signal : string;
  p_confidence : pyfloat;
  p_reasoning : string;
  p_key_factors : value;
  p_risks : value;
  p_timestamp : string
}.

Definition or_default (default : value) (o : option value) : value :=
  match o with
  | Some v => v
  | None => default
  end.

(** [get_prediction]: one query of the table. *)
Definition get_prediction (env : Env) (st : State) (ticker : string)
  : outcome HTTPException Prediction * State :=
  let ticker := Str.strip (Str.upper ticker) in
  let (r, st') := db_select env st ticker 1 in
  (match r with
   | Raise e =>
       Raise {| status_code := 500;
                detail := "Error retrieving prediction: " ++ e |}
   | Return [] =>
       Raise {| status_code := 404;
                detail := "No predictions found for " ++ ticker |}
   | Return (prediction :: _) =>
       Return {| p_ticker := ticker;
                 p_signal := row_signal prediction;
                 p_confidence := row_confidence prediction;
                 p_reasoning := row_reasoning prediction;
                 p_key_factors :=
                   or_default (JArray []) (row_key_factors prediction);
                 p_risks := or_default (JArray []) (row_risks prediction);
                 p_timestamp := row_created_at prediction |}
   end, st').

(** The entry [batch_predict] writes for a ticker whose lookup raised. *)
Record ErrorEntry : Type := {
  err_ticker : string;
  err_error : string;
  err_status : string
}.

Inductive BatchItem : Type :=
| Data (p : Prediction)
| Error (e : ErrorEntry).

Record BatchResponse : Type := {
  b_predictions : list BatchItem;
  b_count : nat;
  b_timestamp : string
}.

(** The loop of [batch_predict]. *)
Fixpoint batch_loop (env : Env) (st : State) (predictions : list BatchItem)
  (ticker_list : list string) : list BatchItem * State :=
  match ticker_list with
  | [] => (predictions, st)
  | ticker :: rest =>
      let (r, st') := get_prediction env st ticker in
      match r with
      | Return pred => batch_loop env st' (predictions ++ [Data pred]) rest
      | Raise e =>
          batch_loop env st'
            (predictions ++ [Error {| err_ticker := ticker;
                                      err_error := detail e;
                                      err_status := "not_found" |}])
            rest
      end
  end.

Definition ticker_list_of (tickers : string) : list string :=
  map (fun t => Str.upper (Str.strip t)) (Str.split "," tickers).

Definition batch_predict (env : Env) (st : State) (tickers : string)
  : BatchResponse * State :=
  let (predictions, st') := batch_loop env st [] (ticker_list_of tickers) in
  ({| b_predictions := predictions;
      b_count := List.length predictions;
      b_timestamp := now env (clock st') |}, st').

Record HistoryResponse : Type := {
  h_ticker : string;
  h_history : list Row;
  h_count : nat
}.

(** [get_history] *)
Definition get_history (env : Env) (st : State) (ticker : string)
  (limit : Z) : outcome HTTPException HistoryResponse * State :=
  let ticker := Str.strip (Str.upper ticker) in
  let (r, st') := db_select env st ticker (Z.min limit 50) in
  (match r with
   | Return data =>
       Return {| h_ticker := ticker;
                 h_history := data;
                 h_count := List.length data |}
   | Raise e =>
       Raise {| status_code := 500;
                detail := "Error retrieving history: " ++ e |}
   end, st').

(** ** Vocabulary of the statements *)

Definition is_brace (c : ascii) : bool :=
  ((c =? lbrace) || (c =? rbrace))%char.

Fixpoint brace_free (s : string) : bool :=
  match s with
  | EmptyString => true
  | String c s' => negb (is_brace c) && brace_free s'
  end.

Fixpoint no_lbrace (s : string) : bool :=
  match s with
  | EmptyString => true
  | String c s' => negb (c =? lbrace)%char && no_lbrace s'
  end.

(** A nested pair of braces around [fst ab], followed by [snd ab]. *)
Definition group_text (ab : string * string) : string :=
  String lbrace (fst ab ++ String rbrace (snd ab)).

Fixpoint groups_text (gs : list (string * string)) : string :=
  match gs with
  | [] => EmptyString
  | g :: gs' => group_text g ++ groups_text gs'
  end.

Definition brace_free_pair (ab : string * string) : Prop :=
  brace_free (fst ab) = true /\ brace_free (snd ab) = true.

(** A brace-delimited text with at most one level of nested braces. *)
Definition one_level_object (obj : string) : Prop :=
  exists p gs,
    brace_free p = true
    /\ Forall brace_free_pair gs
    /\ obj = String lbrace (p ++ groups_text gs ++ String rbrace EmptyString).

(** The text after the run of characters that are no braces. *)
Fixpoint skip_plain (s : string) : string :=
  match s with
  | EmptyString => EmptyString
  | String c s' => if is_brace c then s else skip_plain s'
  end.

(** One pass over the text after an opening brace, [inner] telling
    whether a nested pair is open: the text after the brace that closes
    the object, if the pattern matches. *)
Fixpoint close (inner : bool) (s : string) : option string :=
  match s with
  | EmptyString => None
  | String c s' =>
      if (c =? lbrace)%char then if inner then None else close true s'
      else if (c =? rbrace)%char
           then if inner then close false s' else Some s'
           else close inner s'
  end.

(** The group of the pattern: braces around plain text, and plain text. *)
Definition group_re : Re.regex :=
  Re.Cat (Re.Chr lbrace) (Re.Cat plain (Re.Cat (Re.Chr rbrace) plain)).

(** A continuation that fails on a text starting with a plain
    character. *)
Definition plain_blind {A : Type} (k : string -> option A) : Prop :=
  forall c s, is_brace c = false -> k (String c s) = None.

Definition after {A : Type} (k : string -> option A) (r : option string)
  : option A :=
  match r with
  | Some rest => k rest
  | None => None
  end.

(** The prompt the model receives in [analyze_with_claude] started in
    state [st], and the answer of the provider to it. *)
Definition sent_prompt (env : Env) (st : State) (ticker : string)
  (news : list Article) : string :=
  prompt env ticker news (fst (get_historical_predictions env st ticker 5)).

Definition model_reply (env : Env) (st : State) (ticker : string)
  (news : list Article) : option value :=
  model_api env (S (clock st)) (sent_prompt env st ticker news).

Definition success_entry (ticker : string) (s c : value) : SummaryEntry :=
  {| e_ticker := ticker; e_status := "success";
     e_signal := Some s; e_confidence := Some c |}.

Definition failed_entry (ticker : string) : SummaryEntry :=
  {| e_ticker := ticker; e_status := "failed";
     e_signal := None; e_confidence := None |}.

(** An entry of the summary for [ticker]: a success entry with its two
    fields, or a failure entry. *)
Definition entry_for (ticker : string) (e : SummaryEntry) : Prop :=
  e_ticker e = ticker
  /\ ((e_status e = "success"
       /\ (exists s, e_signal e = Some s)
       /\ (exists c, e_confidence e = Some c))
      \/ (e_status e = "failed"
          /\ e_signal e = None /\ e_confidence e = None)).

(** The ticker has a row in the table. *)
Definition stored (t : list Row) (ticker : string) : bool :=
  existsb (fun r => String.eqb (row_ticker r) ticker) t.

(** The state of the [i]-th lookup of a batch started in [st]. *)
Definition lookup_state (st : State) (i : nat) : State :=
  {| table := table st; clock := clock st + i |}.

Definition not_found_entry (ticker error : string) : BatchItem :=
  Error {| err_ticker := ticker; err_error := error;
           err_status := "not_found" |}.

(** The item the loop of [batch_predict] appends for a lookup. *)
Definition batch_item (ticker : string)
  (r : outcome HTTPException Prediction) : BatchItem :=
  match r with
  | Return p => Data p
  | Raise e => not_found_entry ticker (detail e)
  end.

(** Newest first: no row is older than the one before it. *)
Definition newest_first (l : list Row) : Prop :=
  Sorted (fun a b => newer_eq a b = true) l.

(** ** Sample environments *)

(** The body of a response of the model provider with one text block. *)
Definition message (text : string) : value :=
  JObject [("content",
            JArray [JObject [("type", JString "text");
                             ("text", JString text)]])].

(** A table whose text columns take strings only. *)
Definition row_of_data (d : InsertData) : option Row :=
  match d_signal d, d_reasoning d with
  | JString s, JString r =>
      Some {| row_ticker := d_ticker d;
              row_signal := s;
              row_confidence := d_confidence d;
              row_reasoning := r;
              row_key_factors := Some (d_key_factors d);
              row_risks := Some (d_risks d);
              row_created_at := d_created_at d |}
  | _, _ => None
  end.

(** No news, the model answering every prompt with [reply], a table that
    answers queries and takes inserts when [store_ok]. *)
Definition sample_env (reply : option value) (store_ok : bool) : Env :=
  {| news_api := fun _ _ => None;
     model_api := fun _ _ => reply;
     db_select_error := fun _ => None;
     db_insert := fun _ d => if store_ok then row_of_data d else None;
     now := fun _ => "2024-11-10T14:30:00";
     str_value := fun _ => "?";
     str_float := fun x => x;
     format_2f := fun x => x |}.

Definition empty_state : State := {| table := []; clock := 0 |}.

(** The response of the specification's example and its record. *)
Definition example_object : string :=
  "{" ++ quoted "signal" ++ ":" ++ quoted "BUY" ++ ","
  ++ quoted "confidence" ++ ":0.8," ++ quoted "reasoning" ++ ":"
  ++ quoted "x" ++ "}".

Definition example_response : string :=
  "garbage before " ++ example_object ++ " trailing text".

Definition example_record : value :=
  JObject [("signal", JString "BUY"); ("confidence", JNumber "0.8");
           ("reasoning", JString "x")].


(** A response whose object decodes but has none of the keys of a
    prediction, and its record. *)
Definition note_object : string :=
  "{" ++ quoted "note" ++ ":" ++ quoted "x" ++ "}".

Definition note_response : string :=
  "garbage before " ++ note_object ++ " trailing text".

Definition note_record : value := JObject [("note", JString "x")].



(** The items of a batch over [tickers] started in [st]. *)
Fixpoint batch_items (env : Env) (st : State) (tickers : list string)
  : list BatchItem :=
  match tickers with
  | [] => []
  | t :: rest =>
      batch_item t (fst (get_prediction env st t))
      :: batch_items env (tick st) rest
  end.

(** A generation that succeeds in front of a table that refuses the
    insert. *)
Definition refusing_env : Env :=
  sample_env (Some (message example_response)) false.

(** Three rows of two tickers. *)
Definition sample_row (ticker created_at : string) : Row :=
  {| row_ticker := ticker; row_signal := "HOLD"; row_confidence := "0.5";
     row_reasoning := "r"; row_key_factors := None; row_risks := None;
     row_created_at := created_at |}.

Definition sample_state : State :=
  {| table := [sample_row "AAPL" "2024-11-08T09:00:00";
               sample_row "MSFT" "2024-11-09T09:00:00";
               sample_row "AAPL" "2024-11-10T09:00:00"];
     clock := 0 |}.

(** A table that fails at the second query. *)
Definition failing_env : Env :=
  {| news_api := fun _ _ => None;
     model_api := fun _ _ => None;
     db_select_error := fun n => if (n =? 1)%nat then Some "timeout" else None;
     db_insert := fun _ _ => None;
     now := fun _ => "2024-11-10T14:30:00";
     str_value := fun _ => "?";
     str_float := fun x => x;
     format_2f := fun x => x |}.



(** ** Vocabulary of the further properties *)

(** The key [get_prediction] and [get_history] look a ticker up with. *)
Definition canonical (ticker : string) : string :=
  Str.strip (Str.upper ticker).

(** The record [get_prediction] builds from a row. *)
Definition prediction_of (key : string) (row : Row) : Prediction :=
  {| p_ticker := key;
     p_signal := row_signal row;
     p_confidence := row_confidence row;
     p_reasoning := row_reasoning row;
     p_key_factors := or_default (JArray []) (row_key_factors row);
     p_risks := or_default (JArray []) (row_risks row);
     p_timestamp := row_created_at row |}.

(** [created_at] of [a] is before that of [b]. *)
Definition older (a b : Row) : bool :=
  (row_created_at a <? row_created_at b)%string.


(** The number of success entries of a summary. *)
Definition successes (summary : list SummaryEntry) : nat :=
  List.length
    (filter (fun r => String.eqb (e_status r) "success") summary).

(** [format(v, '.2f')] of a value of a record; [None] stands for the
    [ValueError] of a string, the [TypeError] of [None], a list or a
    dict, and the [OverflowError] of an integer beyond the floats. *)
Definition format_2f_value (env : Env) (v : value) : option string :=
  match v with
  | JNumber lit => if overflows lit then None else Some (format_2f env lit)
  | JBool b => Some (format_2f env (if b then "1" else "0"))
  | JNull | JString _ | JArray _ | JObject _ => None
  end.

(** The line the summary loop of [main] prints for an entry; [None] when
    a subscript or the formatting raises. *)
Definition summary_line (env : Env) (r : SummaryEntry) : option string :=
  if String.eqb (e_status r) "success" then
    match e_signal r, e_confidence r with
    | Some s, Some c =>
        match format_2f_value env c with
        | Some f =>
            Some (e_ticker r ++ ": " ++ py_str env s
                  ++ " (confidence: " ++ f ++ ")")
        | None => None
        end
    | _, _ => None
    end
  else Some (e_ticker r ++ ": ❌ Failed").

(** The summary loop of [main]: the lines printed, up to the entry that
    raises if one does. *)
Fixpoint print_summary (env : Env) (results : list SummaryEntry)
  : outcome (list string) (list string) :=
  match results with
  | [] => Return []
  | r :: rest =>
      match summary_line env r with
      | None => Raise []
      | Some line =>
          match print_summary env rest with
          | Return lines => Return (line :: lines)
          | Raise lines => Raise (line :: lines)
          end
      end
  end.

(** The value formats with two decimals. *)
Definition numeric (v : value) : bool :=
  match v with
  | JNumber lit => negb (overflows lit)
  | JBool _ => true
  | JNull | JString _ | JArray _ | JObject _ => false
  end.

(** A record whose confidence is a string. *)
Definition quoted_confidence_object : string :=
  "{" ++ quoted "signal" ++ ":" ++ quoted "BUY" ++ ","
  ++ quoted "confidence" ++ ":" ++ quoted "0.8" ++ ","
  ++ quoted "reasoning" ++ ":" ++ quoted "x" ++ "}".






(** The text is made of white space only. *)
Fixpoint all_space (s : string) : bool :=
  match s with
  | EmptyString => true
  | String c s' => Str.is_space c && all_space s'
  end.

(** The rows stored under [key] differ in their [created_at]: the order
    of the rows by [created_at] is then the same for every query. *)
Definition distinct_timestamps (t : list Row) (key : string) : Prop :=
  forall r1 r2,
    In r1 t -> In r2 t -> row_ticker r1 = key -> row_ticker r2 = key ->
    row_created_at r1 = row_created_at r2 -> r1 = r2.
(** * Properties *)

(** ** The decoder has fuel enough

    A value, an element loop and a member loop leave a text shorter than
    the one they were given, so the calls they make stay within the bound
    of [loads]. *)

Lemma skip_ws_length s : String.length (skip_ws s) <= String.length s.
Proof.
  induction s as [|c s IH]; simpl; [lia|].
  destruct (is_ws c); simpl; lia.
Qed.

Lemma push_rest pre r x rest :
  push pre r = Some (x, rest) -> exists body, r = Some (body, rest).
Proof.
  destruct r as [[b r']|]; simpl; [|discriminate].
  intros [= _ <-]. eauto.
Qed.

(** What is left after a string is shorter than the text it starts. *)
Lemma scan_string_length :
  forall n s x r,
    String.length s <= n ->
    scan_string s = Some (x, r) -> String.length r < String.length s.
Proof.
  induction n as [|n IH]; intros s x r Hn H.
  - destruct s; [discriminate|simpl in Hn; lia].
  - destruct s as [|c s1]; [discriminate|]. simpl in Hn.
    cbn [scan_string] in H.
    destruct (c =? dquote)%char. { injection H as _ <-. simpl. lia. }
    destruct (c =? backslash)%char.
    + destruct s1 as [|e s2]; [discriminate|].
      destruct (e =? "u")%char.
      * destruct s2 as [|h1 [|h2 [|h3 [|h4 s3]]]]; try discriminate.
        destruct (hex4 h1 h2 h3 h4) as [u|]; [|discriminate].
        assert (Hsingle : forall y,
                   push y (scan_string s3) = Some (x, r) ->
                   String.length r < 6 + String.length s3).
        { intros y Hy. apply push_rest in Hy as [b Hb].
          apply IH in Hb; simpl in *; lia. }
        cbn [String.length].
        destruct (is_high u); [|eauto].
        destruct s3 as [|b [|v [|g1 [|g2 [|g3 [|g4 s4]]]]]]; eauto.
        destruct ((b =? backslash) && (v =? "u"))%char; eauto.
        destruct (hex4 g1 g2 g3 g4) as [u2|]; [|discriminate].
        destruct (is_low u2); eauto.
        apply push_rest in H as [b' Hb]. apply IH in Hb; simpl in *; lia.
      * destruct (unescape e); [|discriminate].
        apply push_rest in H as [b' Hb]. apply IH in Hb; simpl in *; lia.
    + destruct (nat_of_ascii c <? 32)%nat; [discriminate|].
      apply push_rest in H as [b' Hb]. apply IH in Hb; simpl in *; lia.
Qed.

Lemma span_digits_length s ds r :
  span_digits s = (ds, r) -> String.length r <= String.length s.
Proof.
  revert ds r. induction s as [|c s IH]; intros ds r H; simpl in H.
  - injection H as _ <-. simpl. lia.
  - destruct (is_digit c).
    + destruct (span_digits s) as [ds' r'] eqn:E. injection H as _ <-.
      specialize (IH _ _ eq_refl). simpl. lia.
    + injection H as _ <-. lia.
Qed.

Lemma scan_int_length s i r :
  scan_int s = Some (i, r) -> String.length r < String.length s.
Proof.
  unfold scan_int.
  destruct s as [|c s']; [discriminate|].
  destruct (c =? "-")%char.
  - destruct s' as [|d s2]; [discriminate|].
    destruct (d =? "0")%char; [intros [= _ <-]; simpl; lia|].
    destruct (is_digit d); [|discriminate].
    destruct (span_digits s2) as [ds r'] eqn:E. intros [= _ <-].
    apply span_digits_length in E. simpl. lia.
  - destruct (c =? "0")%char; [intros [= _ <-]; simpl; lia|].
    destruct (is_digit c); [|discriminate].
    destruct (span_digits s') as [ds r'] eqn:E. intros [= _ <-].
    apply span_digits_length in E. simpl. lia.
Qed.

Lemma scan_frac_length s f r :
  scan_frac s = (f, r) -> String.length r <= String.length s.
Proof.
  unfold scan_frac. destruct s as [|c s1]; [intros [= _ <-]; lia|].
  destruct (c =? ".")%char; [|intros [= _ <-]; lia].
  destruct (span_digits s1) as [[|d ds] r'] eqn:E; intros [= _ <-]; [lia|].
  apply span_digits_length in E. simpl. lia.
Qed.

Lemma scan_exp_length s e r :
  scan_exp s = (e, r) -> String.length r <= String.length s.
Proof.
  unfold scan_exp. destruct s as [|c s1]; [intros [= _ <-]; lia|].
  destruct (_ || _)%bool; [|intros [= _ <-]; lia].
  assert (H : forall sign s2,
             String.length s2 <= String.length s1 ->
             match span_digits s2 with
             | (EmptyString, _) => (EmptyString, String c s1)
             | (String a s as ds, r0) => (String c (sign ++ ds), r0)
             end = (e, r) ->
             String.length r <= String.length (String c s1)).
  { intros sign s2 Hl.
    destruct (span_digits s2) as [[|d ds] r'] eqn:E; intros [= _ <-]; [lia|].
    apply span_digits_length in E. simpl. lia. }
  destruct s1 as [|d s']; [apply (H "" ""); simpl; lia|].
  destruct (_ || _)%bool; [apply (H (String d "")); simpl; lia|].
  apply (H ""). lia.
Qed.

Lemma scan_number_length s lit r :
  scan_number s = Some (lit, r) -> String.length r < String.length s.
Proof.
  unfold scan_number.
  destruct (scan_int s) as [[i r0]|] eqn:Ei; [|discriminate].
  destruct (scan_frac r0) as [f r1] eqn:Ef.
  destruct (scan_exp r1) as [e r2] eqn:Ee.
  intros [= _ <-]. apply scan_int_length in Ei.
  apply scan_frac_length in Ef. apply scan_exp_length in Ee. lia.
Qed.

Lemma drop_length n s : String.length (drop n s) <= String.length s.
Proof.
  revert s. induction n as [|n IH]; intros s; simpl; [lia|].
  destruct s; simpl; [lia|]. specialize (IH s). lia.
Qed.

Lemma keyword_length w v s x r :
  0 < String.length w ->
  keyword w v s = Some (x, r) -> String.length r < String.length s.
Proof.
  unfold keyword. intros Hw. destruct (prefix w s) eqn:Hp; [|discriminate].
  intros [= _ <-]. destruct w as [|a w]; [simpl in Hw; lia|].
  destruct s as [|c s]; [discriminate|]. simpl.
  pose proof (drop_length (String.length w) s). lia.
Qed.

Lemma or_else_some {A : Type} (a b : option A) x :
  or_else a b = Some x -> a = Some x \/ b = Some x.
Proof. destruct a; simpl; auto. Qed.

(** Closes a goal on the text left by a word of the grammar. *)
Ltac by_keyword H :=
  apply keyword_length in H; [exact H | simpl; lia].

Lemma scan_length :
  forall f,
    (forall s v r,
        scan_once f s = Some (v, r) -> String.length r < String.length s)
    /\ (forall s acc v r,
          parse_items f s acc = Some (v, r) ->
          String.length r < String.length s)
    /\ (forall s acc v r,
          parse_members f s acc = Some (v, r) ->
          String.length r < String.length s).
Proof.
  induction f as [|f (IHv & IHa & IHo)]; [repeat split; discriminate|].
  split; [|split].
  - intros s v r H. destruct s as [|c s1]; [discriminate|].
    cbn [scan_once] in H.
    destruct (c =? dquote)%char.
    { destruct (scan_string s1) as [[str r']|] eqn:E; [|discriminate].
      injection H as _ <-.
      apply (scan_string_length _ _ _ _ (le_n _)) in E. simpl. lia. }
    destruct (c =? "{")%char.
    { pose proof (skip_ws_length s1).
      destruct (skip_ws s1) as [|d r'] eqn:E; [discriminate|].
      destruct (d =? "}")%char.
      - injection H as _ <-. simpl in *. lia.
      - apply IHo in H. simpl in *. lia. }
    destruct (c =? "[")%char.
    { pose proof (skip_ws_length s1).
      destruct (skip_ws s1) as [|d r'] eqn:E; [discriminate|].
      destruct (d =? "]")%char.
      - injection H as _ <-. simpl in *. lia.
      - apply IHa in H. simpl in *. lia. }
    apply or_else_some in H as [H|H]; [by_keyword H|].
    apply or_else_some in H as [H|H]; [by_keyword H|].
    apply or_else_some in H as [H|H]; [by_keyword H|].
    destruct (scan_number (String c s1)) as [[lit r']|] eqn:E.
    { destruct (too_many_digits lit); [discriminate|]. injection H as _ <-.
      now apply scan_number_length in E. }
    apply or_else_some in H as [H|H]; [by_keyword H|].
    apply or_else_some in H as [H|H]; by_keyword H.
  - intros s acc v r H. cbn [parse_items] in H.
    destruct (scan_once f s) as [[v1 r1]|] eqn:E; [|discriminate].
    apply IHv in E. pose proof (skip_ws_length r1).
    destruct (skip_ws r1) as [|c r2] eqn:E2; [discriminate|].
    destruct (c =? "]")%char. { injection H as _ <-. simpl in *. lia. }
    destruct (c =? ",")%char; [|discriminate].
    apply IHa in H. pose proof (skip_ws_length r2). simpl in *. lia.
  - intros s acc v r H. cbn [parse_members] in H.
    destruct s as [|q s1]; [discriminate|].
    destruct (q =? dquote)%char; [|discriminate].
    destruct (scan_string s1) as [[key r0]|] eqn:E; [|discriminate].
    apply (scan_string_length _ _ _ _ (le_n _)) in E.
    pose proof (skip_ws_length r0).
    destruct (skip_ws r0) as [|c r1] eqn:E1; [discriminate|].
    destruct (c =? ":")%char; [|discriminate].
    pose proof (skip_ws_length r1).
    destruct (scan_once f (skip_ws r1)) as [[v1 r2]|] eqn:E2;
      [|discriminate].
    apply IHv in E2. pose proof (skip_ws_length r2).
    destruct (skip_ws r2) as [|d r3] eqn:E3; [discriminate|].
    destruct (d =? "}")%char. { injection H as _ <-. simpl in *. lia. }
    destruct (d =? ",")%char; [|discriminate].
    apply IHo in H. pose proof (skip_ws_length r3). simpl in *. lia.
Qed.

(** From the bound on, the result does not depend on the fuel. *)
Lemma scan_fuel :
  forall f,
    (forall s g,
        2 * String.length s + 1 <= f -> f <= g ->
        scan_once g s = scan_once f s)
    /\ (forall s acc g,
          2 * String.length s + 2 <= f -> f <= g ->
          parse_items g s acc = parse_items f s acc)
    /\ (forall s acc g,
          2 * String.length s + 2 <= f -> f <= g ->
          parse_members g s acc = parse_members f s acc).
Proof.
  induction f as [|f (IHv & IHa & IHo)].
  { repeat split; intros; lia. }
  split; [|split].
  - intros s [|g] Hb Hg; [lia|].
    destruct s as [|c s1]; [reflexivity|].
    cbn [scan_once]. simpl in Hb.
    destruct (c =? dquote)%char; [reflexivity|].
    destruct (c =? "{")%char.
    { pose proof (skip_ws_length s1).
      destruct (skip_ws s1) as [|d r'] eqn:E; [reflexivity|].
      destruct (d =? "}")%char; [reflexivity|].
      apply IHo; simpl in *; lia. }
    destruct (c =? "[")%char; [|reflexivity].
    pose proof (skip_ws_length s1).
    destruct (skip_ws s1) as [|d r'] eqn:E; [reflexivity|].
    destruct (d =? "]")%char; [reflexivity|].
    apply IHa; simpl in *; lia.
  - intros s acc [|g] Hb Hg; [lia|].
    cbn [parse_items]. rewrite (IHv s g) by lia.
    destruct (scan_once f s) as [[v1 r1]|] eqn:E; [|reflexivity].
    apply (proj1 (scan_length f)) in E. pose proof (skip_ws_length r1).
    destruct (skip_ws r1) as [|c r2] eqn:E2; [reflexivity|].
    destruct (c =? "]")%char; [reflexivity|].
    destruct (c =? ",")%char; [|reflexivity].
    pose proof (skip_ws_length r2). apply IHa; simpl in *; lia.
  - intros s acc [|g] Hb Hg; [lia|].
    cbn [parse_members].
    destruct s as [|q s1]; [reflexivity|].
    destruct (q =? dquote)%char; [|reflexivity].
    destruct (scan_string s1) as [[key r0]|] eqn:E; [|reflexivity].
    apply (scan_string_length _ _ _ _ (le_n _)) in E.
    pose proof (skip_ws_length r0).
    destruct (skip_ws r0) as [|c r1] eqn:E1; [reflexivity|].
    destruct (c =? ":")%char; [|reflexivity].
    pose proof (skip_ws_length r1).
    rewrite (IHv (skip_ws r1) g) by (simpl in *; lia).
    destruct (scan_once f (skip_ws r1)) as [[v1 r2]|] eqn:E2;
      [|reflexivity].
    apply (proj1 (scan_length f)) in E2. pose proof (skip_ws_length r2).
    destruct (skip_ws r2) as [|d r3] eqn:E3; [reflexivity|].
    destruct (d =? "}")%char; [reflexivity|].
    destruct (d =? ",")%char; [|reflexivity].
    pose proof (skip_ws_length r3). apply IHo; simpl in *; lia.
Qed.

(** More fuel than [loads] gives changes nothing: the decoder never
    fails for want of fuel. *)
Lemma loads_fuel s g :
  2 * String.length s + 2 <= g ->
  scan_once g (skip_ws s) = scan_once (2 * String.length s + 2) (skip_ws s).
Proof.
  intros Hg. pose proof (skip_ws_length s).
  rewrite (proj1 (scan_fuel (2 * String.length (skip_ws s) + 1))
             (skip_ws s) g) by lia.
  symmetry.
  apply (proj1 (scan_fuel (2 * String.length (skip_ws s) + 1))); lia.
Qed.

(** ** The pattern is a one-pass scan *)

Section Scan.

Context {A : Type}.
Implicit Types (k : string -> option A) (s : string).

Lemma mem_braces c : Re.mem c [lbrace; rbrace] = is_brace c.
Proof. unfold Re.mem, is_brace. simpl. now rewrite orb_false_r. Qed.

Lemma is_brace_false c :
  is_brace c = false ->
  (c =? lbrace)%char = false /\ (c =? rbrace)%char = false.
Proof. unfold is_brace. now intros H%orb_false_iff. Qed.

Lemma skip_plain_length s : String.length (skip_plain s) <= String.length s.
Proof.
  induction s as [|c s IH]; simpl; [lia|].
  destruct (is_brace c); simpl; lia.
Qed.

Lemma skip_plain_head s c t : skip_plain s = String c t -> is_brace c = true.
Proof.
  induction s as [|d s IH]; simpl; [discriminate|].
  destruct (is_brace d) eqn:Hd; [congruence|auto].
Qed.

Lemma close_skip inner s : close inner (skip_plain s) = close inner s.
Proof.
  induction s as [|c s IH]; [reflexivity|]. simpl.
  destruct (is_brace c) eqn:Hc; [reflexivity|].
  destruct (is_brace_false _ Hc) as [-> ->]. exact IH.
Qed.

(** The star over the plain characters skips them all: giving some back
    leaves a plain character at the head, which nothing after the star
    accepts. *)
Lemma star_plain k :
  plain_blind k ->
  forall n s, String.length s <= n ->
  Re.star_loop (Re.bt (Re.NoneOf [lbrace; rbrace])) k n s = k (skip_plain s).
Proof.
  intros Hk n. induction n as [|n IH]; intros s Hn.
  - destruct s; simpl in *; [reflexivity|lia].
  - destruct s as [|c s]; [reflexivity|].
    cbn [Re.star_loop Re.bt skip_plain]. rewrite mem_braces.
    destruct (is_brace c) eqn:Hc; [reflexivity|].
    assert (Hl : (String.length s <? String.length (String c s))%nat = true)
      by (apply Nat.ltb_lt; simpl; lia).
    rewrite Hl. simpl in Hn. rewrite IH by lia.
    destruct (k (skip_plain s)) eqn:Hks; [reflexivity|]. now apply Hk.
Qed.

Lemma bt_plain k s :
  plain_blind k -> Re.bt plain s k = k (skip_plain s).
Proof. intros Hk. unfold plain. cbn [Re.bt]. now apply star_plain. Qed.

(** The loop over the groups and the closing brace after it, started
    where the plain characters end. *)
Lemma star_groups k :
  forall n s, String.length s <= n ->
  Re.star_loop (Re.bt group_re) (fun s3 => Re.bt (Re.Chr rbrace) s3 k) n
    (skip_plain s)
  = after k (close false s).
Proof.
  induction n as [|n IH]; intros s Hn.
  - destruct s; simpl in *; [reflexivity|lia].
  - rewrite <- close_skip.
    pose proof (skip_plain_length s) as Hlen.
    destruct (skip_plain s) as [|c t] eqn:Hs; [reflexivity|].
    pose proof (skip_plain_head _ _ _ Hs) as Hc.
    cbn [Re.star_loop].
    unfold group_re at 1. cbn [Re.bt close].
    destruct (Ascii.eqb_spec c lbrace) as [->|Hl].
    + (* an opening brace: one more group, or no match *)
      rewrite bt_plain.
      2:{ intros d u Hd. cbn [Re.bt].
          destruct (is_brace_false _ Hd) as [_ ->]. reflexivity. }
      rewrite <- (close_skip true t).
      pose proof (skip_plain_length t) as Hlt.
      destruct (skip_plain t) as [|d u] eqn:Ht; [reflexivity|].
      pose proof (skip_plain_head _ _ _ Ht) as Hd.
      cbn [Re.bt close].
      destruct (Ascii.eqb_spec d rbrace) as [->|Hr].
      * change (rbrace =? lbrace)%char with false. cbv iota.
        rewrite bt_plain.
        2:{ intros e v He.
            destruct (_ <? _)%nat; [|reflexivity].
            destruct n as [|m]; cbn [Re.star_loop].
            - cbn [Re.bt]. now destruct (is_brace_false _ He) as [_ ->].
            - unfold group_re at 1. cbn [Re.bt].
              destruct (is_brace_false _ He) as [-> ->]. reflexivity. }
        assert (Hsk : (String.length (skip_plain u)
                       <? String.length (String lbrace t))%nat = true).
        { apply Nat.ltb_lt. pose proof (skip_plain_length u).
          simpl in *. lia. }
        rewrite Hsk. rewrite IH by (simpl in *; lia).
        destruct (close false u) as [rest|]; simpl; [|reflexivity].
        destruct (k rest); reflexivity.
      * assert (Hdl : (d =? lbrace)%char = true).
        { unfold is_brace in Hd. apply orb_true_iff in Hd as [H|H];
            [exact H|]. apply Ascii.eqb_eq in H. contradiction. }
        rewrite Hdl. destruct (Ascii.eqb_spec d rbrace); [contradiction|].
        reflexivity.
    + (* the closing brace of the object *)
      assert (Hr : (c =? rbrace)%char = true).
      { unfold is_brace in Hc. apply orb_true_iff in Hc as [H|H];
          [|exact H]. apply Ascii.eqb_eq in H. contradiction. }
      destruct (Ascii.eqb_spec c lbrace); [contradiction|].
      rewrite Hr. reflexivity.
Qed.

Lemma skip_plain_idem s : skip_plain (skip_plain s) = skip_plain s.
Proof.
  induction s as [|c s IH]; [reflexivity|]. simpl.
  destruct (is_brace c) eqn:Hc; [|exact IH]. simpl. now rewrite Hc.
Qed.

(** The backtracking match of the pattern is the one-pass scan. *)
Lemma bt_json_pattern k s :
  Re.bt json_pattern s k
  = match s with
    | String c s1 =>
        if (c =? lbrace)%char then after k (close false s1) else None
    | EmptyString => None
    end.
Proof.
  destruct s as [|c s1]; [reflexivity|].
  change (Re.bt json_pattern (String c s1) k)
    with (if (c =? lbrace)%char
          then Re.bt plain s1 (fun s2 =>
                 Re.star_loop (Re.bt group_re)
                   (fun s3 => Re.bt (Re.Chr rbrace) s3 k)
                   (String.length s2) s2)
          else None).
  destruct (c =? lbrace)%char; [|reflexivity].
  rewrite bt_plain.
  - rewrite <- (skip_plain_idem s1) at 2.
    rewrite star_groups by lia. now rewrite close_skip.
  - intros d u Hd. cbn [String.length Re.star_loop].
    unfold group_re at 1. cbn [Re.bt].
    destruct (is_brace_false _ Hd) as [-> ->]. reflexivity.
Qed.

End Scan.

(** ** The search of the pattern in a response *)

Lemma match_here_scan s :
  Re.match_here json_pattern s
  = match s with
    | String c s1 =>
        if (c =? lbrace)%char
        then option_map
               (fun rest =>
                  substring 0 (String.length s - String.length rest) s)
               (close false s1)
        else None
    | EmptyString => None
    end.
Proof.
  unfold Re.match_here. rewrite bt_json_pattern.
  destruct s as [|c s1]; [reflexivity|].
  destruct (c =? lbrace)%char; [|reflexivity].
  destruct (close false s1); reflexivity.
Qed.

Lemma search_skip pre t :
  no_lbrace pre = true ->
  Re.search json_pattern (pre ++ t) = Re.search json_pattern t.
Proof.
  induction pre as [|c pre IH]; intros H; [reflexivity|].
  simpl in H. apply andb_true_iff in H as [Hc Hp].
  cbn [append Re.search]. rewrite match_here_scan.
  destruct (c =? lbrace)%char; [discriminate|]. auto.
Qed.

Lemma close_app inner a b r :
  close inner a = Some r -> close inner (a ++ b) = Some (r ++ b).
Proof.
  revert inner. induction a as [|c a IH]; intros inner H; [discriminate|].
  simpl in *. destruct (c =? lbrace)%char.
  - destruct inner; [discriminate|auto].
  - destruct (c =? rbrace)%char; [|auto].
    destruct inner; [auto|]. now inversion H.
Qed.

Lemma close_plain inner p t :
  brace_free p = true -> close inner (p ++ t) = close inner t.
Proof.
  induction p as [|c p IH]; intros H; [reflexivity|].
  simpl in H. apply andb_true_iff in H as [Hc Hp].
  apply negb_true_iff in Hc. destruct (is_brace_false _ Hc) as [Hl Hr].
  simpl. rewrite Hl, Hr. auto.
Qed.

Lemma append_assoc (a b c : string) : (a ++ b) ++ c = a ++ b ++ c.
Proof. induction a as [|x a IH]; simpl; [reflexivity|now rewrite IH]. Qed.

Lemma close_groups gs t :
  Forall brace_free_pair gs ->
  close false (groups_text gs ++ t) = close false t.
Proof.
  induction 1 as [|[a b] gs [Ha Hb] _ IH]; [reflexivity|].
  cbn [groups_text fst snd] in *. unfold group_text. cbn [fst snd].
  rewrite append_assoc. cbn [append close].
  change (lbrace =? lbrace)%char with true. cbv iota.
  rewrite append_assoc, close_plain by exact Ha.
  cbn [append close]. change (rbrace =? lbrace)%char with false.
  change (rbrace =? rbrace)%char with true. cbv iota.
  rewrite close_plain by exact Hb. exact IH.
Qed.

(** The scan closes a one-level object at its last character. *)
Lemma one_level_object_close obj :
  one_level_object obj ->
  exists body, obj = String lbrace body /\ close false body = Some "".
Proof.
  intros (p & gs & Hp & Hgs & ->). eexists. split; [reflexivity|].
  rewrite close_plain by exact Hp. rewrite close_groups by exact Hgs.
  reflexivity.
Qed.

Lemma string_length_app (a b : string) :
  String.length (a ++ b) = String.length a + String.length b.
Proof. induction a as [|x a IH]; simpl; [reflexivity|now rewrite IH]. Qed.

Lemma substring_head (a b : string) :
  substring 0 (String.length a) (a ++ b) = a.
Proof.
  induction a as [|x a IH]; simpl.
  - now destruct b.
  - now rewrite IH.
Qed.

(** An object after a text without opening brace is what the search
    returns, whatever follows it. *)
Lemma search_object pre obj post :
  no_lbrace pre = true ->
  one_level_object obj ->
  Re.search json_pattern (pre ++ obj ++ post) = Some obj.
Proof.
  intros Hpre (body & -> & Hbody)%one_level_object_close.
  rewrite search_skip by exact Hpre.
  cbn [append Re.search]. rewrite match_here_scan.
  change (lbrace =? lbrace)%char with true. cbv iota.
  rewrite (close_app _ _ post _ Hbody). cbn [option_map append].
  replace (String.length (String lbrace (body ++ post)) - String.length post)
    with (String.length (String lbrace body)).
  - change (String lbrace (body ++ post)) with (String lbrace body ++ post).
    now rewrite substring_head.
  - cbn [String.length]. rewrite string_length_app. lia.
Qed.

(** What the scan closes is the rest of a one-level object: the text
    after the opening brace when [inner] is false, the text inside a
    nested pair and after it when [inner] is true. *)
Lemma close_some s :
  forall inner rest,
    close inner s = Some rest ->
    if inner
    then exists a p gs,
           brace_free a = true /\ brace_free p = true
           /\ Forall brace_free_pair gs
           /\ s = a ++ String rbrace (p ++ groups_text gs ++ String rbrace rest)
    else exists p gs,
           brace_free p = true /\ Forall brace_free_pair gs
           /\ s = p ++ groups_text gs ++ String rbrace rest.
Proof.
  induction s as [|c s IH]; intros inner rest H; [discriminate|].
  cbn [close] in H.
  destruct (Ascii.eqb_spec c lbrace) as [->|Hl].
  - destruct inner; [discriminate|].
    destruct (IH true rest H) as (a & p & gs & Ha & Hp & Hgs & ->).
    exists "", ((a, p) :: gs). split; [reflexivity|].
    split; [constructor; [split; assumption|assumption]|].
    cbn [append groups_text]. unfold group_text. cbn [fst snd append].
    now rewrite !append_assoc.
  - destruct (Ascii.eqb_spec c rbrace) as [->|Hr].
    + destruct inner.
      * destruct (IH false rest H) as (p & gs & Hp & Hgs & ->).
        exists "", p, gs. repeat split; assumption.
      * injection H as ->. exists "", []. repeat split. constructor.
    + assert (Hc : negb (is_brace c) = true).
      { unfold is_brace. apply negb_true_iff, orb_false_iff.
        split; now apply Ascii.eqb_neq. }
      destruct inner.
      * destruct (IH true rest H) as (a & p & gs & Ha & Hp & Hgs & ->).
        exists (String c a), p, gs. cbn [brace_free]. rewrite Hc, Ha.
        repeat split; assumption.
      * destruct (IH false rest H) as (p & gs & Hp & Hgs & ->).
        exists (String c p), gs. cbn [brace_free]. rewrite Hc, Hp.
        repeat split; assumption.
Qed.

Lemma search_cons r c s :
  Re.search r (String c s)
  = match Re.match_here r (String c s) with
    | Some m => Some m
    | None => Re.search r s
    end.
Proof. reflexivity. Qed.

(** What the search returns is a one-level object of the text. *)
Lemma search_sound text :
  forall m,
    Re.search json_pattern text = Some m ->
    one_level_object m /\ exists pre post, text = pre ++ m ++ post.
Proof.
  induction text as [|c text IH]; intros m.
  - cbn [Re.search]. rewrite match_here_scan. discriminate.
  - rewrite search_cons, match_here_scan.
    destruct (Ascii.eqb_spec c lbrace) as [->|Hl].
    + destruct (close false text) as [rest|] eqn:Hclose; cbn [option_map].
      * clear IH. apply close_some in Hclose.
        destruct Hclose as (p & gs & Hp & Hgs & ->).
        replace (String.length
                   (String lbrace (p ++ groups_text gs ++ String rbrace rest))
                 - String.length rest)
          with (String.length
                  (String lbrace (p ++ groups_text gs ++ String rbrace "")))
          by (cbn [String.length]; rewrite !string_length_app;
              cbn [String.length]; lia).
        assert (E : String lbrace (p ++ groups_text gs ++ String rbrace rest)
                    = String lbrace (p ++ groups_text gs ++ String rbrace "")
                      ++ rest).
        { cbn [append]. f_equal. rewrite !append_assoc. reflexivity. }
        rewrite E, substring_head. intros [= <-]. split.
        -- exists p, gs. auto.
        -- exists "", rest. reflexivity.
      * intros H. destruct (IH _ H) as (Hm & pre & post & ->).
        split; [exact Hm|]. exists (String lbrace pre), post. reflexivity.
    + intros H. destruct (IH _ H) as (Hm & pre & post & ->).
      split; [exact Hm|]. exists (String c pre), post. reflexivity.
Qed.

(** ** The signal generator *)

Lemma get_historical_predictions_state env st ticker limit :
  snd (get_historical_predictions env st ticker limit) = tick st.
Proof.
  unfold get_historical_predictions, db_select.
  destruct (db_select_error env (clock st)); [reflexivity|].
  destruct (limit <? 0)%Z; reflexivity.
Qed.

(** What [analyze_with_claude] returns is decided by the answer of the
    model provider. *)
Lemma analyze_with_claude_reply env st ticker news :
  fst (analyze_with_claude env st ticker news)
  = match model_reply env st ticker news with
    | Some result =>
        match response_text result with
        | Some text => parse_response text
        | None => None
        end
    | None => None
    end.
Proof.
  unfold analyze_with_claude, model_reply, sent_prompt.
  pose proof (get_historical_predictions_state env st ticker 5) as Hst.
  destruct (get_historical_predictions env st ticker 5) as [h st1].
  simpl in *. subst st1. reflexivity.
Qed.

Lemma analyze_with_claude_state env st ticker news :
  snd (analyze_with_claude env st ticker news) = tick (tick st).
Proof.
  unfold analyze_with_claude.
  pose proof (get_historical_predictions_state env st ticker 5) as Hst.
  destruct (get_historical_predictions env st ticker 5) as [h st1].
  simpl in *. now subst st1.
Qed.

(** A record the generator returns has the two keys its diagnostic line
    reads, and is the decoding of the text the search found. *)
Lemma diagnostic_prints_keys p :
  diagnostic_prints p = true ->
  (exists s, subscript p "signal" = Some s)
  /\ (exists c, subscript p "confidence" = Some c).
Proof.
  unfold diagnostic_prints.
  destruct (subscript p "signal") as [s|]; [|discriminate].
  destruct (subscript p "confidence") as [c|]; [|discriminate]. eauto.
Qed.

Lemma parse_response_some text p :
  parse_response text = Some p ->
  (exists m, Re.search json_pattern text = Some m /\ loads m = Some p)
  /\ (exists s, subscript p "signal" = Some s)
  /\ (exists c, subscript p "confidence" = Some c).
Proof.
  unfold parse_response.
  destruct (Re.search json_pattern text) as [m|]; [|discriminate].
  destruct (loads m) as [q|] eqn:Hq; [|discriminate].
  destruct (diagnostic_prints q) eqn:Hd; [|discriminate].
  intros [= <-]. split; [eauto|]. now apply diagnostic_prints_keys.
Qed.

Lemma analyze_with_claude_some env st ticker news p :
  fst (analyze_with_claude env st ticker news) = Some p ->
  (exists s, subscript p "signal" = Some s)
  /\ (exists c, subscript p "confidence" = Some c).
Proof.
  rewrite analyze_with_claude_reply.
  destruct (model_reply env st ticker news) as [result|]; [|discriminate].
  destruct (response_text result) as [text|]; [|discriminate].
  intros H. now apply parse_response_some in H.
Qed.

Lemma subscript_truthy v k x : subscript v k = Some x -> truthy v = true.
Proof.
  destruct v as [| | | |l|m]; try discriminate.
  destruct m; [discriminate|reflexivity].
Qed.

(** ** The loop of the daily run *)

Lemma fetch_news_state env st ticker : snd (fetch_news env st ticker) = tick st.
Proof. reflexivity. Qed.

(** One turn of the loop, by what the generator returned. *)
Lemma main_loop_cons env st results ticker rest :
  let news := fst (fetch_news env st ticker) in
  let st1 := snd (fetch_news env st ticker) in
  let st2 := snd (analyze_with_claude env st1 ticker news) in
  main_loop env st results (ticker :: rest)
  = match fst (analyze_with_claude env st1 ticker news) with
    | Some p =>
        if truthy p then
          let st3 := snd (store_prediction env st2 ticker p) in
          match subscript p "signal", subscript p "confidence" with
          | Some s, Some c =>
              main_loop env st3 (results ++ [success_entry ticker s c]) rest
          | _, _ => (Raise "KeyError", st3)
          end
        else main_loop env st2 (results ++ [failed_entry ticker]) rest
    | None => main_loop env st2 (results ++ [failed_entry ticker]) rest
    end.
Proof.
  cbv zeta. cbn [main_loop].
  destruct (fetch_news env st ticker) as [news st1]. cbn [fst snd].
  destruct (analyze_with_claude env st1 ticker news) as [[p|] st2];
    cbn [fst snd]; [|reflexivity].
  destruct (truthy p); [|reflexivity].
  destruct (store_prediction env st2 ticker p) as [r st3]. reflexivity.
Qed.

Lemma main_loop_failed env st results ticker rest :
  let news := fst (fetch_news env st ticker) in
  let st1 := snd (fetch_news env st ticker) in
  fst (analyze_with_claude env st1 ticker news) = None ->
  main_loop env st results (ticker :: rest)
  = main_loop env (snd (analyze_with_claude env st1 ticker news))
      (results ++ [failed_entry ticker]) rest.
Proof. cbv zeta. intros H. rewrite main_loop_cons. cbv zeta. now rewrite H. Qed.

Lemma main_loop_success env st results ticker rest p :
  let news := fst (fetch_news env st ticker) in
  let st1 := snd (fetch_news env st ticker) in
  let st2 := snd (analyze_with_claude env st1 ticker news) in
  fst (analyze_with_claude env st1 ticker news) = Some p ->
  exists s c,
    subscript p "signal" = Some s /\ subscript p "confidence" = Some c
    /\ main_loop env st results (ticker :: rest)
       = main_loop env (snd (store_prediction env st2 ticker p))
           (results ++ [success_entry ticker s c]) rest.
Proof.
  cbv zeta. intros H.
  destruct (analyze_with_claude_some _ _ _ _ _ H) as [[s Hs] [c Hc]].
  exists s, c. repeat split; [exact Hs|exact Hc|].
  rewrite main_loop_cons. cbv zeta. rewrite H.
  rewrite (subscript_truthy _ _ _ Hs), Hs, Hc. reflexivity.
Qed.

(** The loop returns: it appends one entry per ticker, in order. *)
Lemma main_loop_entries env tickers :
  forall st results, exists new st',
    main_loop env st results tickers = (Return (results ++ new)%list, st')
    /\ Forall2 entry_for tickers new.
Proof.
  induction tickers as [|ticker rest IH]; intros st results.
  - exists [], st. rewrite app_nil_r. split; [reflexivity|constructor].
  - destruct (fst (analyze_with_claude env (snd (fetch_news env st ticker))
                     ticker (fst (fetch_news env st ticker)))) as [p|] eqn:Hp.
    + destruct (main_loop_success env st results ticker rest p Hp)
        as (s & c & Hs & Hc & ->).
      edestruct IH as (new & st' & -> & Hnew).
      exists (success_entry ticker s c :: new), st'.
      rewrite <- app_assoc. split; [reflexivity|].
      constructor; [|exact Hnew].
      split; [reflexivity|]. left. cbn. eauto.
    + rewrite (main_loop_failed env st results ticker rest Hp).
      edestruct IH as (new & st' & -> & Hnew).
      exists (failed_entry ticker :: new), st'.
      rewrite <- app_assoc. split; [reflexivity|].
      constructor; [|exact Hnew].
      split; [reflexivity|]. right. cbn. auto.
Qed.

Lemma Forall2_length_eq {X Y : Type} (R : X -> Y -> Prop) l l' :
  Forall2 R l l' -> List.length l' = List.length l.
Proof. induction 1; simpl; congruence. Qed.

(** ** The claims on the signal generator *)

(** C1 (as stated, refuted): the response [note_response] holds a
    brace-delimited object without nested braces between two texts
    without braces; the search extracts it and it decodes to a record,
    yet the generator returns no result, because the record has none of
    the keys the diagnostic line reads. *)
Lemma note_response_no_result :
  one_level_object note_object
  /\ brace_free "garbage before " = true
  /\ brace_free " trailing text" = true
  /\ Re.search json_pattern note_response = Some note_object
  /\ loads note_object = Some note_record
  /\ fst (analyze_with_claude (sample_env (Some (message note_response)) true)
            empty_state "AAPL" []) = None.
Proof.
  split.
  { exists (String.substring 1 10 note_object), [].
    split; [reflexivity|]. split; [constructor|reflexivity]. }
  repeat split; vm_compute; reflexivity.
Qed.

(** C1 (amended): when the response is a text without opening brace, a
    brace-delimited object with at most one level of nested braces, and
    any text after it, the search extracts that object; if it decodes to a
    record whose diagnostic line prints (the record has the keys [signal]
    and [confidence], and neither is a string the console cannot
    encode), the generator returns that record.  In particular the
    response of the example gives the record with signal BUY, confidence
    0.8 and reasoning x. *)
Theorem embedded_record_returned :
  (forall pre obj post,
      no_lbrace pre = true ->
      one_level_object obj ->
      Re.search json_pattern (pre ++ obj ++ post) = Some obj)
  /\ (forall env st ticker news result pre obj post record,
        model_reply env st ticker news = Some result ->
        response_text result = Some (pre ++ obj ++ post) ->
        no_lbrace pre = true ->
        one_level_object obj ->
        loads obj = Some record ->
        diagnostic_prints record = true ->
        fst (analyze_with_claude env st ticker news) = Some record)
  /\ parse_response example_response = Some example_record.
Proof.
  split; [exact search_object|].
  split; [|vm_compute; reflexivity].
  intros env st ticker news result pre obj post record
    Hreply Htext Hpre Hobj Hloads Hprints.
  rewrite analyze_with_claude_reply, Hreply, Htext.
  unfold parse_response.
  rewrite (search_object pre obj post Hpre Hobj), Hloads, Hprints.
  reflexivity.
Qed.

Lemma embedded_record_returned_example :
  Re.search json_pattern example_response = Some example_object
  /\ fst (analyze_with_claude
            (sample_env (Some (message example_response)) true)
            empty_state "AAPL" []) = Some example_record.
Proof.
  assert (Hobj : one_level_object example_object).
  { exists (String.substring 1 47 example_object), [].
    split; [reflexivity|]. split; [constructor|reflexivity]. }
  split.
  - exact (proj1 embedded_record_returned "garbage before " example_object
             " trailing text" eq_refl Hobj).
  - exact (proj1 (proj2 embedded_record_returned)
             (sample_env (Some (message example_response)) true)
             empty_state "AAPL" [] (message example_response)
             "garbage before " example_object " trailing text"
             example_record eq_refl eq_refl eq_refl Hobj eq_refl eq_refl).
Defined.

(** C2: when the search finds no candidate in the response, or finds one
    that does not decode, the generator returns [None] (it returns: the
    exception is caught inside), and the loop of the daily run appends a
    failure entry for the ticker and goes on to the end of the list. *)
Theorem unparsable_response_fails env st results ticker rest result text :
  let news := fst (fetch_news env st ticker) in
  let st1 := snd (fetch_news env st ticker) in
  model_reply env st1 ticker news = Some result ->
  response_text result = Some text ->
  Re.search json_pattern text = None
  \/ (exists m, Re.search json_pattern text = Some m /\ loads m = None) ->
  fst (analyze_with_claude env st1 ticker news) = None
  /\ exists new st',
       main_loop env st results (ticker :: rest)
       = (Return (results ++ failed_entry ticker :: new)%list, st')
       /\ Forall2 entry_for rest new.
Proof.
  cbv zeta. intros Hreply Htext Hbad.
  assert (Hnone : fst (analyze_with_claude env (snd (fetch_news env st ticker))
                         ticker (fst (fetch_news env st ticker))) = None).
  { rewrite analyze_with_claude_reply, Hreply, Htext. unfold parse_response.
    destruct Hbad as [->|(m & -> & ->)]; reflexivity. }
  split; [exact Hnone|].
  rewrite (main_loop_failed env st results ticker rest Hnone).
  edestruct (main_loop_entries env rest) as (new & st' & -> & Hnew).
  exists new, st'. rewrite <- app_assoc. split; [reflexivity|exact Hnew].
Qed.

Lemma unparsable_response_fails_example :
  fst (analyze_with_claude (sample_env (Some (message "{not json}")) true)
         (snd (fetch_news (sample_env (Some (message "{not json}")) true)
                 empty_state "AAPL"))
         "AAPL"
         (fst (fetch_news (sample_env (Some (message "{not json}")) true)
                 empty_state "AAPL"))) = None
  /\ exists new st',
       main_loop (sample_env (Some (message "{not json}")) true)
         empty_state [] ["AAPL"; "MSFT"]
       = (Return ([] ++ failed_entry "AAPL" :: new)%list, st')
       /\ Forall2 entry_for ["MSFT"] new.
Proof.
  apply (unparsable_response_fails
           (sample_env (Some (message "{not json}")) true)
           empty_state [] "AAPL" ["MSFT"] (message "{not json}")
           "{not json}");
    [reflexivity | reflexivity |].
  right. exists "{not json}". split; vm_compute; reflexivity.
Defined.




(** C4 (as stated, refuted): in front of a table that refuses the insert,
    the generation for the ticker succeeds, the persist call fails, and
    the summary holds a success entry for the ticker. *)
Lemma failed_persist_recorded_as_success :
  fst (analyze_with_claude refusing_env
         (snd (fetch_news refusing_env empty_state "AAPL")) "AAPL"
         (fst (fetch_news refusing_env empty_state "AAPL")))
  = Some example_record
  /\ fst (store_prediction refusing_env
            (snd (analyze_with_claude refusing_env
                    (snd (fetch_news refusing_env empty_state "AAPL")) "AAPL"
                    (fst (fetch_news refusing_env empty_state "AAPL"))))
            "AAPL" example_record) = None
  /\ fst (run refusing_env empty_state ["AAPL"])
     = Return [success_entry "AAPL" (JString "BUY") (JNumber "0.8")].
Proof. repeat split; vm_compute; reflexivity. Qed.

Lemma store_prediction_failed env st ticker p :
  fst (store_prediction env st ticker p) = None ->
  table (snd (store_prediction env st ticker p)) = table st.
Proof.
  unfold store_prediction.
  destruct (insert_data env st ticker p) as [data|]; [|reflexivity].
  destruct (db_insert env (clock st) data); [discriminate|reflexivity].
Qed.

(** C4 (amended): when the generation for a ticker succeeds and the
    persist call fails, nothing is stored, the loop still appends a
    success entry with the signal and the confidence of the record (it
    does not look at what the persist call returned), and it goes on to
    the end of the list. *)
Theorem persist_failure_keeps_success env st results ticker rest p :
  let news := fst (fetch_news env st ticker) in
  let st1 := snd (fetch_news env st ticker) in
  let st2 := snd (analyze_with_claude env st1 ticker news) in
  fst (analyze_with_claude env st1 ticker news) = Some p ->
  fst (store_prediction env st2 ticker p) = None ->
  table (snd (store_prediction env st2 ticker p)) = table st2
  /\ exists s c new st',
       subscript p "signal" = Some s
       /\ subscript p "confidence" = Some c
       /\ main_loop env st results (ticker :: rest)
          = (Return (results ++ success_entry ticker s c :: new)%list, st')
       /\ Forall2 entry_for rest new.
Proof.
  cbv zeta. intros Hp Hstore.
  split; [now apply store_prediction_failed|].
  destruct (main_loop_success env st results ticker rest p Hp)
    as (s & c & Hs & Hc & ->).
  edestruct (main_loop_entries env rest) as (new & st' & -> & Hnew).
  exists s, c, new, st'. rewrite <- app_assoc. auto.
Qed.

Lemma persist_failure_keeps_success_example :
  table (snd (store_prediction refusing_env
                (snd (analyze_with_claude refusing_env
                        (snd (fetch_news refusing_env empty_state "AAPL"))
                        "AAPL"
                        (fst (fetch_news refusing_env empty_state "AAPL"))))
                "AAPL" example_record))
  = table (snd (analyze_with_claude refusing_env
                  (snd (fetch_news refusing_env empty_state "AAPL")) "AAPL"
                  (fst (fetch_news refusing_env empty_state "AAPL"))))
  /\ exists s c new st',
       subscript example_record "signal" = Some s
       /\ subscript example_record "confidence" = Some c
       /\ main_loop refusing_env empty_state [] ["AAPL"; "MSFT"]
          = (Return ([] ++ success_entry "AAPL" s c :: new)%list, st')
       /\ Forall2 entry_for ["MSFT"] new.
Proof.
  apply (persist_failure_keeps_success refusing_env empty_state []
           "AAPL" ["MSFT"] example_record);
    vm_compute; reflexivity.
Defined.

(** C9: the daily run returns a summary with one entry per ticker of the
    watchlist, in the order of the watchlist; an entry holds the ticker
    and is a success entry with a signal and a confidence or a failure
    entry; the summary is as long as the watchlist.  This holds for every
    watchlist, the configured one included. *)
Theorem summary_one_entry_per_ticker env st :
  (forall watchlist, exists summary st',
      run env st watchlist = (Return summary, st')
      /\ List.length summary = List.length watchlist
      /\ Forall2 entry_for watchlist summary)
  /\ exists summary st',
       main env st = (Return summary, st')
       /\ List.length summary = List.length WATCHLIST
       /\ Forall2 entry_for WATCHLIST summary.
Proof.
  assert (H : forall watchlist, exists summary st',
             run env st watchlist = (Return summary, st')
             /\ List.length summary = List.length watchlist
             /\ Forall2 entry_for watchlist summary).
  { intros watchlist. unfold run.
    destruct (main_loop_entries env watchlist st []) as (new & st' & -> & Hnew).
    exists new, st'. split; [reflexivity|].
    split; [now apply Forall2_length_eq in Hnew|exact Hnew]. }
  split; [exact H|]. exact (H WATCHLIST).
Qed.

(** ** The datastore's query *)

Lemma newer_eq_total a b : newer_eq a b = false -> newer_eq b a = true.
Proof.
  unfold newer_eq. intros H.
  destruct (String.leb_total (row_created_at b) (row_created_at a));
    [congruence|assumption].
Qed.

Lemma insert_desc_sorted r l :
  newest_first l -> newest_first (insert_desc r l).
Proof.
  unfold newest_first. induction l as [|x l IH]; intros Hl.
  - repeat constructor.
  - simpl. destruct (newer_eq r x) eqn:Hrx.
    + constructor; [exact Hl|]. now constructor.
    + apply Sorted_inv in Hl as [Hl Hx].
      constructor; [auto|].
      destruct l as [|y l]; simpl.
      * constructor. now apply newer_eq_total.
      * destruct (newer_eq r y).
        -- constructor. now apply newer_eq_total.
        -- constructor. now inversion Hx.
Qed.

Lemma order_desc_sorted l : newest_first (order_desc l).
Proof.
  induction l as [|r l IH]; [constructor|].
  simpl. now apply insert_desc_sorted.
Qed.

Lemma firstn_sorted n l : newest_first l -> newest_first (firstn n l).
Proof.
  unfold newest_first. revert l. induction n as [|n IH]; intros l Hl.
  - constructor.
  - destruct l as [|x l]; [constructor|].
    apply Sorted_inv in Hl as [Hl Hx]. simpl.
    constructor; [auto|].
    destruct n; [constructor|].
    destruct l as [|y l]; [constructor|].
    constructor. now inversion Hx.
Qed.

Lemma insert_desc_length r l :
  List.length (insert_desc r l) = S (List.length l).
Proof.
  induction l as [|x l IH]; [reflexivity|].
  simpl. destruct (newer_eq r x); simpl; congruence.
Qed.

Lemma order_desc_length l : List.length (order_desc l) = List.length l.
Proof.
  induction l as [|r l IH]; [reflexivity|].
  simpl. now rewrite insert_desc_length, IH.
Qed.

Lemma insert_desc_Forall (P : Row -> Prop) r l :
  P r -> Forall P l -> Forall P (insert_desc r l).
Proof.
  intros Hr. induction 1 as [|x l Hx Hl IH]; simpl.
  - now constructor.
  - destruct (newer_eq r x); repeat constructor; assumption.
Qed.

Lemma order_desc_Forall (P : Row -> Prop) l :
  Forall P l -> Forall P (order_desc l).
Proof.
  induction 1 as [|x l Hx Hl IH]; simpl; [constructor|].
  now apply insert_desc_Forall.
Qed.

Lemma firstn_Forall {X : Type} (P : X -> Prop) n l :
  Forall P l -> Forall P (firstn n l).
Proof.
  intros H. revert n. induction H as [|x l Hx Hl IH]; intros [|n]; simpl;
    constructor; auto.
Qed.

Lemma select_rows_sorted t ticker n : newest_first (select_rows t ticker n).
Proof. apply firstn_sorted, order_desc_sorted. Qed.

Lemma select_rows_length t ticker n :
  List.length (select_rows t ticker n) <= n.
Proof. apply firstn_le_length. Qed.

Lemma select_rows_ticker t ticker n :
  Forall (fun r => row_ticker r = ticker) (select_rows t ticker n).
Proof.
  unfold select_rows. apply firstn_Forall, order_desc_Forall.
  apply Forall_forall. intros r [_ H]%filter_In. now apply String.eqb_eq.
Qed.

Lemma filter_stored t ticker :
  stored t ticker = false ->
  filter (fun r => String.eqb (row_ticker r) ticker) t = [].
Proof.
  induction t as [|r t IH]; [reflexivity|]. simpl.
  destruct (String.eqb (row_ticker r) ticker); [discriminate|exact IH].
Qed.

Lemma select_rows_absent t ticker n :
  stored t ticker = false -> select_rows t ticker n = [].
Proof.
  intros H. unfold select_rows. rewrite filter_stored by exact H.
  now destruct n.
Qed.

Lemma select_rows_present t ticker n :
  stored t ticker = true ->
  exists r l, select_rows t ticker (S n) = r :: l.
Proof.
  intros H. unfold select_rows.
  assert (Hlen : List.length
            (order_desc
               (filter (fun r => String.eqb (row_ticker r) ticker) t)) <> 0).
  { rewrite order_desc_length. clear n.
    induction t as [|r t IH]; [discriminate|]. simpl in *.
    destruct (String.eqb (row_ticker r) ticker); simpl; [lia|auto]. }
  destruct (order_desc _) as [|r l]; [contradiction|].
  simpl. eauto.
Qed.

(** ** The canonical form of a ticker *)

Lemma upper_char_idem c : Str.upper_char (Str.upper_char c) = Str.upper_char c.
Proof. destruct c as [[] [] [] [] [] [] [] []]; reflexivity. Qed.

Lemma is_space_upper c : Str.is_space (Str.upper_char c) = Str.is_space c.
Proof. destruct c as [[] [] [] [] [] [] [] []]; reflexivity. Qed.

Lemma upper_idem s : Str.upper (Str.upper s) = Str.upper s.
Proof.
  induction s as [|c s IH]; [reflexivity|].
  simpl. now rewrite upper_char_idem, IH.
Qed.

Lemma lstrip_upper s : Str.lstrip (Str.upper s) = Str.upper (Str.lstrip s).
Proof.
  induction s as [|c s IH]; [reflexivity|].
  simpl. rewrite is_space_upper. now destruct (Str.is_space c).
Qed.

Lemma rstrip_upper s : Str.rstrip (Str.upper s) = Str.upper (Str.rstrip s).
Proof.
  induction s as [|c s IH]; [reflexivity|].
  simpl. rewrite IH, is_space_upper.
  destruct (Str.rstrip s); simpl; [|reflexivity].
  now destruct (Str.is_space c).
Qed.

Lemma rstrip_idem s : Str.rstrip (Str.rstrip s) = Str.rstrip s.
Proof.
  induction s as [|c s IH]; [reflexivity|].
  simpl. destruct (Str.rstrip s) as [|d r] eqn:Hr.
  - destruct (Str.is_space c) eqn:Hc; [reflexivity|].
    simpl. now rewrite Hc.
  - cbn [Str.rstrip]. cbn [Str.rstrip] in IH. now rewrite IH.
Qed.

Lemma rstrip_head c s :
  Str.is_space c = false -> exists r, Str.rstrip (String c s) = String c r.
Proof.
  intros Hc. simpl. destruct (Str.rstrip s); [|eauto].
  rewrite Hc. eauto.
Qed.

Lemma lstrip_head s :
  Str.lstrip s = EmptyString
  \/ exists c r, Str.lstrip s = String c r /\ Str.is_space c = false.
Proof.
  induction s as [|c s IH]; [now left|].
  simpl. destruct (Str.is_space c) eqn:Hc; [exact IH|]. right. eauto.
Qed.

Lemma strip_idem s : Str.strip (Str.strip s) = Str.strip s.
Proof.
  unfold Str.strip.
  destruct (lstrip_head s) as [->|(c & r & -> & Hc)]; [reflexivity|].
  destruct (rstrip_head c r Hc) as [r' Hr]. rewrite Hr.
  cbn [Str.lstrip]. rewrite Hc, <- Hr. apply rstrip_idem.
Qed.

Lemma strip_upper s : Str.strip (Str.upper s) = Str.upper (Str.strip s).
Proof. unfold Str.strip. now rewrite lstrip_upper, rstrip_upper. Qed.

(** What [get_prediction] looks up for a ticker of the list of
    [batch_predict] is that ticker. *)
Lemma canonical_ticker raw :
  Str.strip (Str.upper (Str.upper (Str.strip raw)))
  = Str.upper (Str.strip raw).
Proof. now rewrite upper_idem, strip_upper, strip_idem. Qed.

Lemma ticker_list_canonical tickers t :
  In t (ticker_list_of tickers) -> Str.strip (Str.upper t) = t.
Proof.
  unfold ticker_list_of. intros (raw & <- & _)%in_map_iff.
  apply canonical_ticker.
Qed.

Lemma split_nonempty sep s : Str.split sep s <> [].
Proof.
  destruct s as [|c s]; simpl; [discriminate|].
  destruct (Ascii.eqb c sep); [discriminate|].
  destruct (Str.split sep s); discriminate.
Qed.

(** ** The read API *)

Lemma get_prediction_state env st ticker :
  snd (get_prediction env st ticker) = tick st.
Proof.
  unfold get_prediction, db_select.
  destruct (db_select_error env (clock st)); reflexivity.
Qed.

(** A lookup, by what the table answers. *)
Lemma get_prediction_result env st ticker :
  fst (get_prediction env st ticker)
  = let key := Str.strip (Str.upper ticker) in
    match db_select_error env (clock st) with
    | Some msg =>
        Raise {| status_code := 500;
                 detail := "Error retrieving prediction: " ++ msg |}
    | None =>
        match select_rows (table st) key 1 with
        | [] =>
            Raise {| status_code := 404;
                     detail := "No predictions found for " ++ key |}
        | prediction :: _ =>
            Return {| p_ticker := key;
                      p_signal := row_signal prediction;
                      p_confidence := row_confidence prediction;
                      p_reasoning := row_reasoning prediction;
                      p_key_factors :=
                        or_default (JArray []) (row_key_factors prediction);
                      p_risks :=
                        or_default (JArray []) (row_risks prediction);
                      p_timestamp := row_created_at prediction |}
        end
    end.
Proof.
  unfold get_prediction, db_select.
  destruct (db_select_error env (clock st)); reflexivity.
Qed.

Lemma batch_loop_items env tickers :
  forall st acc,
    batch_loop env st acc tickers
    = ((acc ++ batch_items env st tickers)%list,
       lookup_state st (List.length tickers)).
Proof.
  induction tickers as [|t rest IH]; intros st acc.
  - simpl. rewrite app_nil_r. unfold lookup_state.
    rewrite Nat.add_0_r. now destruct st.
  - cbn [batch_loop batch_items].
    pose proof (get_prediction_state env st t) as Hst.
    destruct (get_prediction env st t) as [r st']. cbn [fst snd] in *.
    subst st'.
    assert (Hl : lookup_state (tick st) (List.length rest)
                 = lookup_state st (List.length (t :: rest))).
    { unfold lookup_state, tick. cbn. f_equal. lia. }
    destruct r; rewrite IH, <- app_assoc, Hl; reflexivity.
Qed.

Lemma batch_items_nth env tickers :
  forall st i t,
    nth_error tickers i = Some t ->
    nth_error (batch_items env st tickers) i
    = Some (batch_item t (fst (get_prediction env (lookup_state st i) t))).
Proof.
  induction tickers as [|x rest IH]; intros st [|i] t H; try discriminate.
  - simpl in H. injection H as ->. simpl. unfold lookup_state.
    rewrite Nat.add_0_r. now destruct st.
  - simpl in H. simpl. rewrite (IH _ _ _ H).
    replace (lookup_state (tick st) i) with (lookup_state st (S i));
      [reflexivity|].
    unfold lookup_state, tick. cbn. f_equal. lia.
Qed.

Lemma batch_items_length env tickers :
  forall st, List.length (batch_items env st tickers) = List.length tickers.
Proof. induction tickers; intros st; simpl; [reflexivity|now f_equal]. Qed.

Lemma batch_predict_predictions env st tickers :
  b_predictions (fst (batch_predict env st tickers))
  = batch_items env st (ticker_list_of tickers)
  /\ b_count (fst (batch_predict env st tickers))
     = List.length (Str.split "," tickers).
Proof.
  unfold batch_predict. rewrite batch_loop_items. cbn.
  split; [reflexivity|].
  rewrite batch_items_length. unfold ticker_list_of. apply length_map.
Qed.

(** C5: the batch lookup returns a response (nothing in it raises) whose
    count is the number of comma-separated fields of the input, with one
    item per field; for a ticker whose query the table answers, the item
    is a data entry for that ticker when the ticker has a stored row, and
    an error entry with status [not_found] when it has none. *)
Theorem batch_predict_mixed env st tickers :
  let resp := fst (batch_predict env st tickers) in
  b_count resp = List.length (Str.split "," tickers)
  /\ List.length (b_predictions resp) = b_count resp
  /\ forall i t,
       nth_error (ticker_list_of tickers) i = Some t ->
       db_select_error env (clock st + i) = None ->
       if stored (table st) t
       then exists p,
              nth_error (b_predictions resp) i = Some (Data p)
              /\ p_ticker p = t
       else nth_error (b_predictions resp) i
            = Some (not_found_entry t ("No predictions found for " ++ t)).
Proof.
  cbv zeta.
  destruct (batch_predict_predictions env st tickers) as [Hitems Hcount].
  split; [exact Hcount|].
  split.
  { rewrite Hitems, Hcount, batch_items_length.
    unfold ticker_list_of. apply length_map. }
  intros i t Ht Hdb. rewrite Hitems, (batch_items_nth _ _ _ _ _ Ht).
  rewrite get_prediction_result. cbv zeta.
  rewrite (ticker_list_canonical tickers t) by (eapply nth_error_In; eauto).
  cbn [lookup_state clock table]. rewrite Hdb.
  destruct (stored (table st) t) eqn:Hstored.
  - destruct (select_rows_present _ _ 0 Hstored) as (r & l & ->).
    eexists. split; reflexivity.
  - now rewrite select_rows_absent.
Qed.

Lemma batch_predict_mixed_example :
  let resp := fst (batch_predict (sample_env None true) sample_state
                     " aapl ,tsla,MSFT") in
  b_count resp = 3
  /\ (exists p, nth_error (b_predictions resp) 0 = Some (Data p)
                /\ p_ticker p = "AAPL")
  /\ nth_error (b_predictions resp) 1
     = Some (not_found_entry "TSLA" "No predictions found for TSLA").
Proof.
  cbv zeta.
  destruct (batch_predict_mixed (sample_env None true) sample_state
              " aapl ,tsla,MSFT") as (Hcount & _ & Hitems).
  split; [exact Hcount|].
  split.
  - exact (Hitems 0 "AAPL" eq_refl eq_refl).
  - exact (Hitems 1 "TSLA" eq_refl eq_refl).
Defined.

(** C10: in the batch lookup every [HTTPException] of the lookup of a
    ticker becomes an inline entry with status [not_found] that carries
    the detail of the exception: the 500 of a failing table gets the same
    status as the 404 of an absent ticker, and the batch still returns
    one item per ticker. *)
Theorem batch_predict_http_errors env st tickers i t :
  nth_error (ticker_list_of tickers) i = Some t ->
  let resp := fst (batch_predict env st tickers) in
  let answer := fst (get_prediction env (lookup_state st i) t) in
  (forall e, answer = Raise e ->
             nth_error (b_predictions resp) i
             = Some (not_found_entry t (detail e)))
  /\ (forall msg,
        db_select_error env (clock st + i) = Some msg ->
        answer = Raise {| status_code := 500;
                          detail := "Error retrieving prediction: " ++ msg |}
        /\ nth_error (b_predictions resp) i
           = Some (not_found_entry t ("Error retrieving prediction: " ++ msg)))
  /\ (db_select_error env (clock st + i) = None ->
      stored (table st) t = false ->
      answer = Raise {| status_code := 404;
                        detail := "No predictions found for " ++ t |}
      /\ nth_error (b_predictions resp) i
         = Some (not_found_entry t ("No predictions found for " ++ t)))
  /\ List.length (b_predictions resp) = List.length (ticker_list_of tickers).
Proof.
  intros Ht. cbv zeta.
  destruct (batch_predict_predictions env st tickers) as [Hitems Hcount].
  rewrite Hitems, (batch_items_nth _ _ _ _ _ Ht), batch_items_length.
  assert (Hraise : forall e,
             fst (get_prediction env (lookup_state st i) t) = Raise e ->
             Some (batch_item t (fst (get_prediction env (lookup_state st i) t)))
             = Some (not_found_entry t (detail e))).
  { intros e ->. reflexivity. }
  split; [exact Hraise|].
  split; [|split; [|reflexivity]].
  - intros msg Hdb.
    assert (Ha : fst (get_prediction env (lookup_state st i) t)
                 = Raise {| status_code := 500;
                            detail := "Error retrieving prediction: " ++ msg |}).
    { rewrite get_prediction_result. cbn [lookup_state clock table].
      now rewrite Hdb. }
    split; [exact Ha|]. now rewrite (Hraise _ Ha).
  - intros Hdb Hstored.
    assert (Ha : fst (get_prediction env (lookup_state st i) t)
                 = Raise {| status_code := 404;
                            detail := "No predictions found for " ++ t |}).
    { rewrite get_prediction_result. cbv zeta.
      rewrite (ticker_list_canonical tickers t)
        by (eapply nth_error_In; eauto).
      cbn [lookup_state clock table]. rewrite Hdb.
      now rewrite select_rows_absent. }
    split; [exact Ha|]. now rewrite (Hraise _ Ha).
Qed.

Lemma batch_predict_http_errors_example :
  let resp := fst (batch_predict failing_env sample_state "AAPL,MSFT,TSLA") in
  nth_error (b_predictions resp) 1
  = Some (not_found_entry "MSFT" "Error retrieving prediction: timeout")
  /\ nth_error (b_predictions resp) 2
     = Some (not_found_entry "TSLA" "No predictions found for TSLA")
  /\ List.length (b_predictions resp) = 3.
Proof.
  cbv zeta. split; [|split].
  - exact (proj2 (proj1 (proj2
             (batch_predict_http_errors failing_env sample_state
                "AAPL,MSFT,TSLA" 1 "MSFT" eq_refl)) "timeout" eq_refl)).
  - exact (proj2 (proj1 (proj2 (proj2
             (batch_predict_http_errors failing_env sample_state
                "AAPL,MSFT,TSLA" 2 "TSLA" eq_refl))) eq_refl eq_refl)).
  - exact (proj2 (proj2 (proj2
             (batch_predict_http_errors failing_env sample_state
                "AAPL,MSFT,TSLA" 1 "MSFT" eq_refl)))).
Defined.

(** C6: whatever the ticker and the limit, a history that is returned
    holds at most min(limit, 50) rows, all of the ticker, newest first,
    and its count is their number; and it is returned whenever the table
    answers and the limit is not negative. *)
Theorem history_bounded_newest_first env st ticker limit :
  (forall h,
      fst (get_history env st ticker limit) = Return h ->
      (Z.of_nat (List.length (h_history h)) <= Z.min limit 50)%Z
      /\ newest_first (h_history h)
      /\ Forall (fun r => row_ticker r = Str.strip (Str.upper ticker))
           (h_history h)
      /\ h_count h = List.length (h_history h))
  /\ (db_select_error env (clock st) = None ->
      (0 <= limit)%Z ->
      exists h, fst (get_history env st ticker limit) = Return h).
Proof.
  unfold get_history, db_select.
  destruct (db_select_error env (clock st)) as [msg|].
  { split; [intros h H; discriminate|intros H; discriminate]. }
  destruct (Z.min limit 50 <? 0)%Z eqn:Hneg.
  { split; [intros h H; discriminate|].
    intros _ Hl. apply Z.ltb_lt in Hneg. lia. }
  cbn [fst]. split; [|eauto].
  intros h [= <-]. cbn [h_history h_count].
  apply Z.ltb_ge in Hneg.
  split; [|split; [apply select_rows_sorted|split;
                   [apply select_rows_ticker|reflexivity]]].
  pose proof (select_rows_length (table st) (Str.strip (Str.upper ticker))
                (Z.to_nat (Z.min limit 50))).
  lia.
Qed.

Lemma history_bounded_newest_first_example :
  exists h,
    fst (get_history (sample_env None true) sample_state "aapl" 1) = Return h
    /\ (Z.of_nat (List.length (h_history h)) <= Z.min 1 50)%Z
    /\ newest_first (h_history h).
Proof.
  destruct (history_bounded_newest_first (sample_env None true) sample_state
              "aapl" 1) as [Hbound Hreturns].
  destruct (Hreturns eq_refl ltac:(lia)) as [h Hh].
  exists h. split; [exact Hh|].
  destruct (Hbound h Hh) as (Hlen & Hsorted & _). split; assumption.
Defined.

(** ** The news fetch *)








(** ** The prompt *)

Lemma prefix_head (a b : string) : prefix a (a ++ b) = true.
Proof. apply prefix_correct. apply substring_head. Qed.

Lemma contains_app (a sub b : string) :
  Str.contains sub (a ++ sub ++ b) = true.
Proof.
  induction a as [|c a IH].
  - destruct sub as [|x sub]; [now destruct b|].
    cbn [append Str.contains]. apply orb_true_iff. left.
    apply (prefix_head (String x sub) b).
  - cbn [append Str.contains]. rewrite IH. apply orb_true_r.
Qed.



(** * Further properties *)

(** ** The order of the timestamps *)

Lemma string_leb_trans a :
  forall b c,
    (a <=? b)%string = true -> (b <=? c)%string = true ->
    (a <=? c)%string = true.
Proof.
  unfold String.leb.
  induction a as [|x a IH]; intros [|y b] [|z c]; cbn [String.compare];
    try reflexivity; try discriminate.
  unfold Ascii.compare.
  destruct (N.compare_spec (N_of_ascii x) (N_of_ascii y)) as [Exy|Lxy|Gxy];
    try discriminate;
    destruct (N.compare_spec (N_of_ascii y) (N_of_ascii z)) as [Eyz|Lyz|Gyz];
    try discriminate;
    destruct (N.compare_spec (N_of_ascii x) (N_of_ascii z)) as [Exz|Lxz|Gxz];
    try reflexivity; try lia; try discriminate.
  apply IH.
Qed.

Lemma newer_eq_trans a b c :
  newer_eq a b = true -> newer_eq b c = true -> newer_eq a c = true.
Proof. unfold newer_eq. intros H1 H2. eapply string_leb_trans; eauto. Qed.

Lemma newer_eq_refl a : newer_eq a a = true.
Proof.
  unfold newer_eq. destruct (String.leb_total (row_created_at a)
                               (row_created_at a)); assumption.
Qed.

Lemma older_not_newer a b : older a b = true -> newer_eq a b = false.
Proof.
  unfold older, newer_eq, String.ltb, String.leb.
  rewrite (String.compare_antisym (row_created_at b) (row_created_at a)).
  destruct (String.compare (row_created_at a) (row_created_at b));
    simpl; congruence.
Qed.

Lemma insert_desc_In r l x : In x (insert_desc r l) <-> x = r \/ In x l.
Proof.
  induction l as [|y l IH]; simpl.
  - intuition.
  - destruct (newer_eq r y); simpl; [intuition|]. rewrite IH. intuition.
Qed.

Lemma order_desc_In l x : In x (order_desc l) <-> In x l.
Proof.
  induction l as [|y l IH]; simpl; [tauto|].
  rewrite insert_desc_In, IH. intuition.
Qed.

(** The first row of a list that is newest first is not older than any
    row of the list. *)
Lemma newest_first_head h t :
  newest_first (h :: t) -> Forall (fun r => newer_eq h r = true) (h :: t).
Proof.
  intros H. constructor; [apply newer_eq_refl|].
  apply Sorted_StronglySorted in H.
  - now inversion H.
  - intros a b c. apply newer_eq_trans.
Qed.

Lemma order_desc_head l h t :
  order_desc l = h :: t ->
  In h l /\ Forall (fun r => newer_eq h r = true) l.
Proof.
  intros E. split.
  - apply order_desc_In. rewrite E. now left.
  - pose proof (order_desc_sorted l) as Hs. rewrite E in Hs.
    apply newest_first_head in Hs. rewrite <- E in Hs.
    apply Forall_forall. intros r Hr. rewrite Forall_forall in Hs.
    apply Hs. now apply order_desc_In.
Qed.

(** The first row a query returns is a row of the ticker in the table,
    and no row of the ticker is newer. *)
Lemma select_rows_head t key n h rest :
  select_rows t key n = h :: rest ->
  In h t /\ row_ticker h = key
  /\ forall r, In r t -> row_ticker r = key -> newer_eq h r = true.
Proof.
  unfold select_rows. intros E.
  destruct (order_desc (filter (fun r => (row_ticker r =? key)%string) t))
    as [|h' t'] eqn:Eo; [now destruct n|].
  destruct n as [|n]; [discriminate|]. simpl in E. injection E as -> _.
  apply order_desc_head in Eo as [Hin Hall].
  apply filter_In in Hin as [Hin Hk]. apply String.eqb_eq in Hk.
  repeat split; [assumption..|].
  intros r Hr Hrk. rewrite Forall_forall in Hall. apply Hall.
  apply filter_In. split; [exact Hr|]. now apply String.eqb_eq.
Qed.

(** ** The latest prediction *)

Lemma select_rows_empty t key n :
  select_rows t key (S n) = [] -> stored t key = false.
Proof.
  intros E. destruct (stored t key) eqn:Hs; [|reflexivity].
  destruct (select_rows_present t key n Hs) as (r & l & H). congruence.
Qed.

(** X1: a lookup returns the prediction built from a row of the table
    stored under the canonical ticker such that no row of that ticker is
    newer; it raises a 404 exactly when the table answers and holds no
    row of the ticker, and a 500 with the message of the datastore
    exactly when the query fails. *)
Theorem get_prediction_latest env st ticker :
  match fst (get_prediction env st ticker) with
  | Return p =>
      db_select_error env (clock st) = None
      /\ exists row,
           In row (table st)
           /\ row_ticker row = canonical ticker
           /\ p = prediction_of (canonical ticker) row
           /\ forall r, In r (table st) ->
                        row_ticker r = canonical ticker ->
                        newer_eq row r = true
  | Raise e =>
      (status_code e = 404%Z
       /\ db_select_error env (clock st) = None
       /\ stored (table st) (canonical ticker) = false
       /\ detail e = "No predictions found for " ++ canonical ticker)
      \/ (status_code e = 500%Z
          /\ exists msg,
               db_select_error env (clock st) = Some msg
               /\ detail e = "Error retrieving prediction: " ++ msg)
  end.
Proof.
  rewrite get_prediction_result. cbv zeta. fold (canonical ticker).
  destruct (db_select_error env (clock st)) as [msg|].
  { right. split; [reflexivity|]. exists msg. split; reflexivity. }
  destruct (select_rows (table st) (canonical ticker) 1) as [|row rest] eqn:E.
  - left. apply select_rows_empty in E. repeat split; assumption.
  - split; [reflexivity|]. exists row.
    apply select_rows_head in E as (Hin & Hk & Hmax).
    repeat split; assumption.
Qed.

Lemma canonical_idem ticker : canonical (canonical ticker) = canonical ticker.
Proof.
  unfold canonical. rewrite (strip_upper ticker).
  rewrite canonical_ticker. reflexivity.
Qed.

Lemma upper_app s t : Str.upper (s ++ t) = Str.upper s ++ Str.upper t.
Proof. induction s as [|c s IH]; simpl; congruence. Qed.

Lemma all_space_upper w : all_space (Str.upper w) = all_space w.
Proof.
  induction w as [|c w IH]; [reflexivity|].
  simpl. now rewrite is_space_upper, IH.
Qed.

Lemma lstrip_space_app w s :
  all_space w = true -> Str.lstrip (w ++ s) = Str.lstrip s.
Proof.
  induction w as [|c w IH]; [reflexivity|].
  simpl. intros [Hc Hw]%andb_true_iff. rewrite Hc. auto.
Qed.

Lemma rstrip_space w : all_space w = true -> Str.rstrip w = EmptyString.
Proof.
  induction w as [|c w IH]; [reflexivity|].
  simpl. intros [Hc Hw]%andb_true_iff. now rewrite (IH Hw), Hc.
Qed.

Lemma rstrip_app_space s w :
  all_space w = true -> Str.rstrip (s ++ w) = Str.rstrip s.
Proof.
  intros Hw. induction s as [|c s IH]; [now apply rstrip_space|].
  cbn [append Str.rstrip]. now rewrite IH.
Qed.

Lemma lstrip_app_space s w :
  all_space w = true ->
  exists w', all_space w' = true /\ Str.lstrip (s ++ w) = Str.lstrip s ++ w'.
Proof.
  intros Hw. induction s as [|c s IH].
  - exists "". split; [reflexivity|].
    cbn [append]. clear -Hw. induction w as [|c w IH]; [reflexivity|].
    simpl in *. apply andb_true_iff in Hw as [-> Hw]. auto.
  - cbn [append Str.lstrip]. destruct (Str.is_space c); [exact IH|].
    exists w. split; [exact Hw|reflexivity].
Qed.

(** White space around a text and the case of its letters do not change
    its canonical form. *)
Lemma canonical_variant w1 t1 w2 t2 :
  all_space w1 = true -> all_space w2 = true ->
  Str.upper t1 = Str.upper t2 ->
  canonical (w1 ++ t1 ++ w2) = canonical t2.
Proof.
  intros H1 H2 Ht. unfold canonical, Str.strip.
  rewrite !upper_app, Ht.
  rewrite lstrip_space_app by now rewrite all_space_upper.
  destruct (lstrip_app_space (Str.upper t2) (Str.upper w2))
    as (w' & Hw' & ->); [now rewrite all_space_upper|].
  now apply rstrip_app_space.
Qed.

(** X2: the lookup of the latest prediction and the history read the
    ticker up to case and surrounding white space: a ticker written in
    another case of its letters, with white space before and after it,
    gets the same answer, and so does its upper-case form. *)
Theorem lookups_normalise_ticker env st w1 t1 w2 t2 limit :
  all_space w1 = true -> all_space w2 = true ->
  Str.upper t1 = Str.upper t2 ->
  get_prediction env st (w1 ++ t1 ++ w2) = get_prediction env st t2
  /\ get_history env st (w1 ++ t1 ++ w2) limit = get_history env st t2 limit
  /\ get_prediction env st (Str.upper t2) = get_prediction env st t2
  /\ get_history env st (Str.upper t2) limit = get_history env st t2 limit.
Proof.
  intros H1 H2 Ht.
  pose proof (canonical_variant w1 t1 w2 t2 H1 H2 Ht) as E.
  pose proof (canonical_variant "" (Str.upper t2) "" t2 eq_refl eq_refl
                (upper_idem t2)) as E'.
  assert (A : forall s, s ++ "" = s)
    by (induction s as [|c s IH]; simpl; congruence).
  cbn [append] in E'. rewrite A in E'.
  unfold get_prediction, get_history.
  fold (canonical (w1 ++ t1 ++ w2)). fold (canonical (Str.upper t2)).
  fold (canonical t2). rewrite E, E'. repeat split.
Qed.

Lemma lookups_normalise_ticker_example :
  get_prediction (sample_env None true) sample_state " aapl "
  = get_prediction (sample_env None true) sample_state "AaPL"
  /\ get_history (sample_env None true) sample_state " aapl " 10
     = get_history (sample_env None true) sample_state "AaPL" 10
  /\ get_prediction (sample_env None true) sample_state "AAPL"
     = get_prediction (sample_env None true) sample_state "AaPL"
  /\ get_history (sample_env None true) sample_state "AAPL" 10
     = get_history (sample_env None true) sample_state "AaPL" 10.
Proof.
  exact (lookups_normalise_ticker (sample_env None true) sample_state
           " " "aapl" " " "AaPL" 10 eq_refl eq_refl eq_refl).
Defined.

Lemma get_history_rows env st ticker limit h :
  fst (get_history env st ticker limit) = Return h ->
  db_select_error env (clock st) = None
  /\ (0 <= Z.min limit 50)%Z
  /\ h_history h
     = select_rows (table st) (canonical ticker) (Z.to_nat (Z.min limit 50)).
Proof.
  unfold get_history, db_select. fold (canonical ticker).
  destruct (db_select_error env (clock st)); [discriminate|].
  destruct (Z.min limit 50 <? 0)%Z eqn:Hneg; [discriminate|].
  cbn [fst]. intros [= <-]. apply Z.ltb_ge in Hneg. auto.
Qed.

Lemma newer_eq_antisym a b :
  newer_eq a b = true -> newer_eq b a = true ->
  row_created_at a = row_created_at b.
Proof.
  unfold newer_eq. intros H1 H2. now apply String.leb_antisym.
Qed.

(** Two rows of the ticker that both are not older than any row of the
    ticker are one row when the timestamps of the ticker differ. *)
Lemma newest_unique t key a b :
  distinct_timestamps t key ->
  In a t -> row_ticker a = key ->
  (forall r, In r t -> row_ticker r = key -> newer_eq a r = true) ->
  In b t -> row_ticker b = key ->
  (forall r, In r t -> row_ticker r = key -> newer_eq b r = true) ->
  a = b.
Proof.
  intros Hd Ha Hka Hma Hb Hkb Hmb.
  apply Hd; try assumption.
  apply newer_eq_antisym; auto.
Qed.

Lemma insert_desc_perm r l : Permutation (insert_desc r l) (r :: l).
Proof.
  induction l as [|x l IH]; simpl; [reflexivity|].
  destruct (newer_eq r x); [reflexivity|].
  rewrite IH. apply perm_swap.
Qed.

Lemma order_desc_perm l : Permutation (order_desc l) l.
Proof.
  induction l as [|x l IH]; simpl; [reflexivity|].
  rewrite insert_desc_perm. now constructor.
Qed.

(** Rows that differ in their timestamps have one order by timestamp:
    two lists of the same rows, both newest first, are equal. *)
Lemma newest_first_unique l1 :
  forall l2,
    Permutation l1 l2 -> newest_first l1 -> newest_first l2 ->
    (forall r1 r2, In r1 l1 -> In r2 l1 ->
                   row_created_at r1 = row_created_at r2 -> r1 = r2) ->
    l1 = l2.
Proof.
  induction l1 as [|a l1 IH]; intros l2 Hp H1 H2 Hd.
  - now apply Permutation_nil in Hp.
  - destruct l2 as [|b l2];
      [symmetry in Hp; now apply Permutation_nil in Hp|].
    pose proof (newest_first_head _ _ H1) as Ha.
    pose proof (newest_first_head _ _ H2) as Hb.
    rewrite Forall_forall in Ha, Hb.
    assert (Hba : In b (a :: l1))
      by (eapply Permutation_in; [symmetry; exact Hp|now left]).
    assert (Hab : In a (b :: l2))
      by (eapply Permutation_in; [exact Hp|now left]).
    assert (E : a = b).
    { apply Hd; [now left|exact Hba|].
      apply newer_eq_antisym; auto. }
    subst b. f_equal. apply IH.
    + now apply Permutation_cons_inv in Hp.
    + now apply Sorted_inv in H1.
    + now apply Sorted_inv in H2.
    + intros r1 r2 Hr1 Hr2. apply Hd; now right.
Qed.

(** The answer of the datastore does not depend on how it orders rows
    with equal timestamps when the rows of the ticker have none: every
    list of the rows of the ticker that is newest first is the list of
    [order_desc]. *)
Lemma order_desc_unique t key l :
  distinct_timestamps t key ->
  Permutation l (filter (fun r => (row_ticker r =? key)%string) t) ->
  newest_first l ->
  l = order_desc (filter (fun r => (row_ticker r =? key)%string) t).
Proof.
  intros Hd Hp Hs. apply newest_first_unique.
  - rewrite Hp. symmetry. apply order_desc_perm.
  - exact Hs.
  - apply order_desc_sorted.
  - intros r1 r2 Hr1 Hr2.
    apply (Permutation_in _ Hp), filter_In in Hr1 as [Hr1 Hk1].
    apply (Permutation_in _ Hp), filter_In in Hr2 as [Hr2 Hk2].
    apply String.eqb_eq in Hk1, Hk2. now apply Hd.
Qed.

(** X3: the latest prediction is the first row of the history.  When
    the rows of the ticker differ in their timestamps, a history of the
    ticker is returned and is not empty, a lookup that the table answers
    returns the prediction built from the first row of the history;
    whatever the timestamps, it returns a prediction with the timestamp
    of that row. *)
Theorem latest_is_head_of_history
  env env' st st' ticker limit h row rest :
  fst (get_history env st ticker limit) = Return h ->
  h_history h = row :: rest ->
  table st' = table st ->
  db_select_error env' (clock st') = None ->
  (exists p,
     fst (get_prediction env' st' ticker) = Return p
     /\ p_ticker p = canonical ticker
     /\ p_timestamp p = row_created_at row)
  /\ (distinct_timestamps (table st) (canonical ticker) ->
      fst (get_prediction env' st' ticker)
      = Return (prediction_of (canonical ticker) row)).
Proof.
  intros Hh Hrows Htable Hdb.
  apply get_history_rows in Hh as (_ & _ & E). rewrite Hrows in E.
  symmetry in E. apply select_rows_head in E as (Hin & Hk & Hmax).
  rewrite get_prediction_result. cbv zeta. fold (canonical ticker).
  rewrite Hdb, Htable.
  destruct (select_rows (table st) (canonical ticker) 1) as [|row' rest']
    eqn:E'.
  - exfalso. apply select_rows_empty in E'. unfold stored in E'.
    assert (Hex : existsb (fun r => (row_ticker r =? canonical ticker)%string)
                    (table st) = true).
    { apply existsb_exists. exists row. split; [exact Hin|].
      now apply String.eqb_eq. }
    unfold stored in E'. congruence.
  - apply select_rows_head in E' as (Hin' & Hk' & Hmax'). split.
    + eexists. split; [reflexivity|]. split; [reflexivity|].
      cbn [prediction_of p_timestamp].
      apply newer_eq_antisym; auto.
    + intros Hd.
      now rewrite (newest_unique (table st) (canonical ticker) row' row).
Qed.

Lemma sample_distinct : distinct_timestamps (table sample_state) "AAPL".
Proof.
  intros r1 r2 H1 H2 _ _.
  cbn in H1, H2.
  destruct H1 as [<-|[<-|[<-|[]]]]; destruct H2 as [<-|[<-|[<-|[]]]];
    cbn; intros E; try reflexivity; discriminate.
Defined.

Lemma latest_is_head_of_history_example :
  (exists p,
     fst (get_prediction (sample_env None true) sample_state "aapl")
     = Return p
     /\ p_ticker p = canonical "aapl"
     /\ p_timestamp p
        = row_created_at (sample_row "AAPL" "2024-11-10T09:00:00"))
  /\ fst (get_prediction (sample_env None true) sample_state "aapl")
     = Return (prediction_of (canonical "aapl")
                 (sample_row "AAPL" "2024-11-10T09:00:00")).
Proof.
  pose proof (latest_is_head_of_history (sample_env None true)
                (sample_env None true) sample_state sample_state "aapl" 10
                {| h_ticker := "AAPL";
                   h_history := [sample_row "AAPL" "2024-11-10T09:00:00";
                                 sample_row "AAPL" "2024-11-08T09:00:00"];
                   h_count := 2 |}
                (sample_row "AAPL" "2024-11-10T09:00:00")
                [sample_row "AAPL" "2024-11-08T09:00:00"]
                eq_refl eq_refl eq_refl eq_refl) as H.
  exact (conj (proj1 H) (proj2 H sample_distinct)).
Defined.

Lemma firstn_nest {X : Type} (a b : nat) (l : list X) :
  a <= b -> firstn b l = (firstn a l ++ firstn (b - a) (skipn a l))%list.
Proof.
  revert b l. induction a as [|a IH]; intros b l Hab.
  - simpl. now rewrite Nat.sub_0_r.
  - destruct b as [|b]; [lia|]. destruct l as [|x l]; simpl.
    + now rewrite firstn_nil.
    + f_equal. apply IH. lia.
Qed.

(** X4: histories of one ticker over the same table nest.  When the
    rows of the ticker differ in their timestamps, the history for a
    smaller limit is the beginning of the history for a larger one, and
    from 50 on the limit changes nothing. *)
Theorem history_pages_nest env env' st st' ticker n m hn hm :
  fst (get_history env st ticker n) = Return hn ->
  fst (get_history env' st' ticker m) = Return hm ->
  table st' = table st ->
  (n <= m)%Z ->
  distinct_timestamps (table st) (canonical ticker) ->
  exists rest,
    h_history hm = (h_history hn ++ rest)%list
    /\ ((50 <= n)%Z -> rest = []).
Proof.
  intros Hn Hm Htable Hle _.
  apply get_history_rows in Hn as (_ & Hn0 & ->).
  apply get_history_rows in Hm as (_ & Hm0 & ->).
  rewrite Htable. unfold select_rows.
  set (l := order_desc _).
  assert (Hab : Z.to_nat (Z.min n 50) <= Z.to_nat (Z.min m 50)) by lia.
  rewrite (firstn_nest _ _ l Hab). eexists. split; [reflexivity|].
  intros H50.
  replace (Z.to_nat (Z.min m 50) - Z.to_nat (Z.min n 50)) with 0 by lia.
  reflexivity.
Qed.

Lemma history_pages_nest_example :
  exists rest,
    [sample_row "AAPL" "2024-11-10T09:00:00";
     sample_row "AAPL" "2024-11-08T09:00:00"]
    = ([sample_row "AAPL" "2024-11-10T09:00:00"] ++ rest)%list
    /\ ((50 <= 1)%Z -> rest = []).
Proof.
  apply (history_pages_nest (sample_env None true) (sample_env None true)
           sample_state sample_state "AAPL" 1 2
           {| h_ticker := "AAPL";
              h_history := [sample_row "AAPL" "2024-11-10T09:00:00"];
              h_count := 1 |}
           {| h_ticker := "AAPL";
              h_history := [sample_row "AAPL" "2024-11-10T09:00:00";
                            sample_row "AAPL" "2024-11-08T09:00:00"];
              h_count := 2 |});
    [reflexivity | reflexivity | reflexivity | lia | exact sample_distinct].
Defined.

(** ** The history of the prompt *)

Lemma firstn_incl {X : Type} n (l : list X) x :
  In x (firstn n l) -> In x l.
Proof.
  revert l. induction n as [|n IH]; intros [|y l]; simpl; try tauto.
  intros [H|H]; auto.
Qed.

(** X5: the history read for the prompt never raises: it holds at most
    [limit] rows (none for a negative limit), all rows of the table
    stored under exactly the given ticker, newest first; it is empty when
    the query fails; the call leaves the table as it was. *)
Theorem historical_predictions_bounded env st ticker limit :
  let rows := fst (get_historical_predictions env st ticker limit) in
  (Z.of_nat (List.length rows) <= Z.max 0 limit)%Z
  /\ Forall (fun r => row_ticker r = ticker /\ In r (table st)) rows
  /\ newest_first rows
  /\ (forall msg, db_select_error env (clock st) = Some msg -> rows = [])
  /\ snd (get_historical_predictions env st ticker limit) = tick st.
Proof.
  cbv zeta. unfold get_historical_predictions, db_select.
  destruct (db_select_error env (clock st)) as [msg|].
  { cbn. repeat split; try constructor. lia. }
  destruct (limit <? 0)%Z eqn:Hneg.
  { cbn. repeat split; try constructor; try discriminate. lia. }
  cbn [fst snd]. apply Z.ltb_ge in Hneg.
  split.
  { pose proof (select_rows_length (table st) ticker (Z.to_nat limit)). lia. }
  split.
  { apply Forall_forall. intros r Hr. split.
    - pose proof (select_rows_ticker (table st) ticker (Z.to_nat limit)) as H.
      rewrite Forall_forall in H. now apply H.
    - unfold select_rows in Hr. apply firstn_incl in Hr.
      apply (proj1 (order_desc_In _ _)) in Hr.
      now apply filter_In in Hr. }
  split; [apply select_rows_sorted|]. split; [discriminate|reflexivity].
Qed.

(** ** What is sent to the table *)



(** What the record sent to the table holds. *)
Lemma insert_data_fields env st ticker p data :
  insert_data env st ticker p = Some data ->
  d_ticker data = ticker
  /\ subscript p "signal" = Some (d_signal data)
  /\ (exists c, subscript p "confidence" = Some c
                /\ py_float c = Some (d_confidence data))
  /\ subscript p "reasoning" = Some (d_reasoning data)
  /\ d_created_at data = now env (clock st).
Proof.
  unfold insert_data. destruct p as [| | | |l|m]; try discriminate.
  cbn [subscript].
  destruct (lookup "signal" m) as [s|]; [|discriminate].
  destruct (lookup "confidence" m) as [c|]; [|discriminate].
  destruct (py_float c) as [x|] eqn:Hc; [|discriminate].
  destruct (lookup "reasoning" m) as [r|]; [|discriminate].
  intros [= <-]. cbn. repeat split; eauto.
Qed.

(** ** Store, then look up *)

(** X7: store, then look up.  When [store_prediction] stored a row, the
    row is kept under the canonical form of the ticker looked up and
    every older row of that ticker has an earlier timestamp, a lookup the
    table answers returns the prediction built from that row. *)
Theorem stored_prediction_is_latest env env' st st1 ticker ticker' p row :
  store_prediction env st ticker p = (Some row, st1) ->
  row_ticker row = canonical ticker' ->
  (forall r, In r (table st) -> row_ticker r = canonical ticker' ->
             older r row = true) ->
  db_select_error env' (clock st1) = None ->
  fst (get_prediction env' st1 ticker')
  = Return (prediction_of (canonical ticker') row).
Proof.
  intros Hstore Hticker Holder Hdb.
  assert (Htable : table st1 = (table st ++ [row])%list).
  { unfold store_prediction in Hstore.
    destruct (insert_data env st ticker p) as [data|]; [|discriminate].
    destruct (db_insert env (clock st) data); [|discriminate].
    now injection Hstore as -> <-. }
  rewrite get_prediction_result. cbv zeta. fold (canonical ticker').
  rewrite Hdb.
  destruct (select_rows (table st1) (canonical ticker') 1) as [|h rest]
    eqn:E.
  - exfalso. apply select_rows_empty in E.
    rewrite Htable in E. unfold stored in E.
    rewrite existsb_app in E. cbn in E. rewrite Hticker in E.
    rewrite String.eqb_refl in E. rewrite orb_true_r in E. discriminate.
  - apply select_rows_head in E as (Hin & Hk & Hmax).
    rewrite Htable in Hin, Hmax.
    apply in_app_iff in Hin as [Hin|[<-|[]]]; [|reflexivity].
    exfalso. specialize (Holder h Hin Hk).
    apply older_not_newer in Holder.
    rewrite Hmax in Holder; [discriminate| |exact Hticker].
    apply in_app_iff. right. now left.
Qed.

Lemma stored_prediction_is_latest_example :
  fst (get_prediction (sample_env None true)
         (snd (store_prediction (sample_env None true) sample_state "AAPL"
                 example_record)) " aapl")
  = Return (prediction_of (canonical " aapl")
              {| row_ticker := "AAPL"; row_signal := "BUY";
                 row_confidence := "0.8"; row_reasoning := "x";
                 row_key_factors := Some (JArray []);
                 row_risks := Some (JArray []);
                 row_created_at := "2024-11-10T14:30:00" |}).
Proof.
  apply (stored_prediction_is_latest (sample_env None true)
           (sample_env None true) sample_state _ "AAPL" " aapl"
           example_record);
    [reflexivity | reflexivity | | reflexivity].
  intros r [<-|[<-|[<-|[]]]] Hk; try reflexivity; discriminate.
Defined.

(** ** What a run does to the table *)

Lemma store_prediction_effect env st ticker p :
  exists added,
    table (snd (store_prediction env st ticker p))
    = (table st ++ added)%list
    /\ List.length added <= 1
    /\ clock st <= clock (snd (store_prediction env st ticker p))
       <= S (clock st).
Proof.
  unfold store_prediction.
  destruct (insert_data env st ticker p) as [data|].
  - destruct (db_insert env (clock st) data) as [row|]; cbn.
    + exists [row]. repeat split; simpl; lia.
    + exists []. rewrite app_nil_r. repeat split; simpl; lia.
  - exists []. rewrite app_nil_r. cbn. repeat split; simpl; lia.
Qed.

Lemma successes_app a b : successes (a ++ b) = successes a + successes b.
Proof. unfold successes. now rewrite filter_app, length_app. Qed.

Lemma main_loop_effects env tickers :
  forall st results summary st',
    main_loop env st results tickers = (Return summary, st') ->
    exists new added,
      summary = (results ++ new)%list
      /\ table st' = (table st ++ added)%list
      /\ List.length added <= successes new
      /\ clock st + 3 * List.length tickers <= clock st'
         <= clock st + 3 * List.length tickers + successes new.
Proof.
  induction tickers as [|ticker rest IH]; intros st results summary st' H.
  - injection H as <- <-. exists [], []. rewrite !app_nil_r.
    repeat split; simpl; lia.
  - destruct (fst (analyze_with_claude env (snd (fetch_news env st ticker))
                     ticker (fst (fetch_news env st ticker)))) as [p|] eqn:Hp.
    + destruct (main_loop_success env st results ticker rest p Hp)
        as (s & c & Hs & Hc & E).
      rewrite E in H. clear E. apply IH in H.
      destruct H as (new & added & -> & Ht & Hlen & Hclock).
      rewrite analyze_with_claude_state, fetch_news_state in Ht, Hclock.
      destruct (store_prediction_effect env (tick (tick (tick st))) ticker p)
        as (a1 & Ha1 & Hl1 & Hc1).
      rewrite Ha1 in Ht. cbn [tick table clock] in *.
      exists (success_entry ticker s c :: new), (a1 ++ added)%list.
      split; [now rewrite <- app_assoc|].
      split; [now rewrite Ht, <- app_assoc|].
      change (success_entry ticker s c :: new)
        with ([success_entry ticker s c] ++ new)%list.
      rewrite successes_app, length_app.
      change (successes [success_entry ticker s c]) with 1.
      cbn [List.length]. lia.
    + rewrite (main_loop_failed env st results ticker rest Hp) in H.
      apply IH in H. destruct H as (new & added & -> & Ht & Hlen & Hclock).
      rewrite analyze_with_claude_state, fetch_news_state in Ht, Hclock.
      cbn [tick table clock] in *.
      exists (failed_entry ticker :: new), added.
      split; [now rewrite <- app_assoc|].
      split; [exact Ht|].
      change (failed_entry ticker :: new)
        with ([failed_entry ticker] ++ new)%list.
      rewrite successes_app.
      change (successes [failed_entry ticker]) with 0.
      cbn [List.length]. lia.
Qed.

(** X8: a run only appends to the table: the table after it is the table
    before it followed by at most one row per success entry; and it
    makes three outbound calls per ticker plus at most one insert per
    success entry (nothing is retried). *)
Theorem run_append_only env st watchlist summary st' :
  run env st watchlist = (Return summary, st') ->
  exists added,
    table st' = (table st ++ added)%list
    /\ List.length added <= successes summary
    /\ clock st + 3 * List.length watchlist <= clock st'
       <= clock st + 3 * List.length watchlist + successes summary.
Proof.
  unfold run. intros H. apply main_loop_effects in H.
  destruct H as (new & added & -> & Ht & Hlen & Hclock).
  exists added. auto.
Qed.

Lemma run_append_only_example :
  exists added,
    table (snd (run refusing_env sample_state ["AAPL"; "MSFT"]))
    = (table sample_state ++ added)%list
    /\ List.length added
       <= successes [success_entry "AAPL" (JString "BUY") (JNumber "0.8");
                     success_entry "MSFT" (JString "BUY") (JNumber "0.8")]
    /\ clock sample_state + 3 * 2
       <= clock (snd (run refusing_env sample_state ["AAPL"; "MSFT"]))
       <= clock sample_state + 3 * 2
          + successes [success_entry "AAPL" (JString "BUY") (JNumber "0.8");
                       success_entry "MSFT" (JString "BUY") (JNumber "0.8")].
Proof.
  apply (run_append_only refusing_env sample_state ["AAPL"; "MSFT"]).
  vm_compute. reflexivity.
Defined.

(** ** A generation that fails *)

(** X9: when the call of the model raises, or its response has no text
    at [content[0].text], the generator returns [None], the loop appends
    a failure entry for the ticker, and after the three calls of the turn
    the table is as it was: nothing is stored for the ticker. *)
Theorem generation_failure_stores_nothing env st results ticker rest :
  let news := fst (fetch_news env st ticker) in
  let st1 := snd (fetch_news env st ticker) in
  model_reply env st1 ticker news = None
  \/ (exists result,
        model_reply env st1 ticker news = Some result
        /\ response_text result = None) ->
  fst (analyze_with_claude env st1 ticker news) = None
  /\ main_loop env st results (ticker :: rest)
     = main_loop env (tick (tick (tick st)))
         (results ++ [failed_entry ticker]) rest.
Proof.
  cbv zeta. intros H.
  assert (Hnone : fst (analyze_with_claude env (snd (fetch_news env st ticker))
                         ticker (fst (fetch_news env st ticker))) = None).
  { rewrite analyze_with_claude_reply.
    destruct H as [->|(result & -> & ->)]; reflexivity. }
  split; [exact Hnone|].
  rewrite (main_loop_failed env st results ticker rest Hnone).
  now rewrite analyze_with_claude_state, fetch_news_state.
Qed.

Lemma generation_failure_stores_nothing_example :
  fst (analyze_with_claude (sample_env None true)
         (snd (fetch_news (sample_env None true) sample_state "AAPL"))
         "AAPL"
         (fst (fetch_news (sample_env None true) sample_state "AAPL")))
  = None
  /\ main_loop (sample_env None true) sample_state [] ["AAPL"]
     = main_loop (sample_env None true) (tick (tick (tick sample_state)))
         ([] ++ [failed_entry "AAPL"]) [].
Proof.
  apply (generation_failure_stores_nothing (sample_env None true)
           sample_state [] "AAPL" []).
  left. reflexivity.
Defined.

(** ** The items of the feed *)





(** ** The candidate of a response *)

(** A match at the head of a text is a one-level object, and the text
    starts with it. *)
Lemma match_here_sound s m :
  Re.match_here json_pattern s = Some m ->
  one_level_object m /\ exists post, s = m ++ post.
Proof.
  rewrite match_here_scan. destruct s as [|c text]; [discriminate|].
  destruct (Ascii.eqb_spec c lbrace) as [->|Hl]; [|discriminate].
  destruct (close false text) as [rest|] eqn:Hclose; [|discriminate].
  cbn [option_map]. apply close_some in Hclose.
  destruct Hclose as (p & gs & Hp & Hgs & ->).
  replace (String.length
             (String lbrace (p ++ groups_text gs ++ String rbrace rest))
           - String.length rest)
    with (String.length
            (String lbrace (p ++ groups_text gs ++ String rbrace "")))
    by (cbn [String.length]; rewrite !string_length_app;
        cbn [String.length]; lia).
  assert (E : String lbrace (p ++ groups_text gs ++ String rbrace rest)
              = String lbrace (p ++ groups_text gs ++ String rbrace "")
                ++ rest).
  { cbn [append]. f_equal. rewrite !append_assoc. reflexivity. }
  rewrite E, substring_head. intros [= <-]. split.
  - exists p, gs. auto.
  - exists rest. reflexivity.
Qed.

Lemma search_complete pre obj post :
  one_level_object obj ->
  exists m, Re.search json_pattern (pre ++ obj ++ post) = Some m.
Proof.
  intros H. induction pre as [|c pre IH].
  - exists obj. exact (search_object "" obj post eq_refl H).
  - cbn [append]. rewrite search_cons.
    destruct (Re.match_here json_pattern _); eauto.
Qed.

(** X11: the candidate the search returns is a brace-delimited text with
    at most one level of nested braces, it is a contiguous part of the
    response, and the pattern matches at no earlier position; the search
    finds nothing exactly when the response holds no such text. *)
Theorem search_finds_leftmost_object text :
  match Re.search json_pattern text with
  | Some m =>
      one_level_object m
      /\ exists pre post,
           text = pre ++ m ++ post
           /\ forall a b,
                pre = a ++ b -> b <> "" ->
                Re.match_here json_pattern (b ++ m ++ post) = None
  | None =>
      forall pre obj post,
        text = pre ++ obj ++ post -> ~ one_level_object obj
  end.
Proof.
  destruct (Re.search json_pattern text) as [m|] eqn:Hs.
  - revert m Hs. induction text as [|c text IH]; intros m Hs.
    + cbn [Re.search] in Hs. rewrite match_here_scan in Hs. discriminate.
    + rewrite search_cons in Hs.
      destruct (Re.match_here json_pattern (String c text)) as [m'|] eqn:Hm.
      * injection Hs as ->.
        apply match_here_sound in Hm as (Hobj & post & E).
        split; [exact Hobj|]. exists "", post. split; [exact E|].
        intros [|x a] b Hab Hb; [|discriminate].
        cbn [append] in Hab. congruence.
      * destruct (IH m Hs) as (Hobj & pre & post & -> & Hleft).
        split; [exact Hobj|]. exists (String c pre), post.
        split; [reflexivity|].
        intros [|x a] b E Hb.
        -- cbn [append] in E. subst b. exact Hm.
        -- cbn [append] in E. injection E as _ ->.
           exact (Hleft a b eq_refl Hb).
  - intros pre obj post -> Hobj.
    destruct (search_complete pre obj post Hobj) as [m Hm]. congruence.
Qed.

(** ** The summary *)

Lemma summary_line_some env r :
  (exists line, summary_line env r = Some line)
  <-> (e_status r = "success" ->
       (exists s, e_signal r = Some s)
       /\ exists c, e_confidence r = Some c /\ numeric c = true).
Proof.
  unfold summary_line.
  destruct (String.eqb_spec (e_status r) "success") as [E|E].
  - destruct (e_signal r) as [s|].
    2:{ split; [intros [l H]; discriminate|].
        intros H. destruct (H E) as [[s Hs] _]. discriminate. }
    destruct (e_confidence r) as [c|].
    2:{ split; [intros [l H]; discriminate|].
        intros H. destruct (H E) as (_ & c & Hc & _). discriminate. }
    assert (Hn : numeric c = true
                 <-> exists f, format_2f_value env c = Some f).
    { destruct c as [|b|lit|str|l|m]; cbn;
        try (split; [discriminate|intros [f H]; discriminate]).
      - split; [eexists; reflexivity|reflexivity].
      - destruct (overflows lit); cbn.
        + split; [discriminate|intros [f H]; discriminate].
        + split; [eexists; reflexivity|reflexivity]. }
    split.
    + intros [l H] _. split; [eauto|]. exists c. split; [reflexivity|].
      apply Hn. destruct (format_2f_value env c); [eauto|discriminate].
    + intros H. destruct (H E) as (_ & c' & [= <-] & Hc).
      apply Hn in Hc as [f ->]. eauto.
  - split; [intros _ H; contradiction|eauto].
Qed.

Lemma print_summary_returns env results :
  (exists lines, print_summary env results = Return lines)
  <-> Forall (fun r => exists line, summary_line env r = Some line) results.
Proof.
  induction results as [|r rest IH]; simpl.
  - split; [constructor|eauto].
  - destruct (summary_line env r) as [line|] eqn:Hline.
    + destruct (print_summary env rest) as [lines|lines].
      * split; [|eauto]. intros _. constructor; [eauto|].
        apply IH. eauto.
      * split; [intros [l H]; discriminate|].
        intros H. inversion H as [|x y _ Hrest]; subst.
        apply IH in Hrest as [l Hl]. discriminate.
    + split; [intros [l H]; discriminate|].
      intros H. inversion H as [|x y [l Hl] _]; subst. congruence.
Qed.

(** X12: the summary loop at the end of [main] prints every line of the
    summary of a run exactly when the confidence of each success entry
    is a number (or a boolean); a confidence that is a string, null, a
    list or an object makes the formatting raise after the run. *)
Theorem summary_prints_iff_numeric env st watchlist summary st' :
  run env st watchlist = (Return summary, st') ->
  (exists lines, print_summary env summary = Return lines)
  <-> Forall (fun r => forall c, e_confidence r = Some c -> numeric c = true)
        summary.
Proof.
  intros Hrun. unfold run in Hrun.
  destruct (main_loop_entries env watchlist st [])
    as (summary' & st'' & Hrun' & Hentries).
  rewrite Hrun in Hrun'. injection Hrun' as -> _. cbn [app] in *.
  rewrite print_summary_returns.
  assert (Hall : Forall (fun r => exists t, entry_for t r) summary').
  { clear Hrun. induction Hentries; constructor; eauto. }
  clear Hentries Hrun. induction Hall as [|r rest [t (_ & Hr)] _ IH].
  - split; constructor.
  - split; intros H; inversion H as [|x y Hx Hy]; subst;
      (constructor; [|now apply IH]).
    + intros c Hc.
      destruct Hr as [(Hstat & _ & _)|(_ & _ & Hnone)]; [|congruence].
      destruct (proj1 (summary_line_some env r) Hx Hstat)
        as (_ & c' & Hc' & Hn).
      congruence.
    + apply summary_line_some. intros Hstat.
      destruct Hr as [(_ & Hsig & c & Hc)|(Hfail & _)]; [|congruence].
      split; [exact Hsig|]. exists c. split; [exact Hc|]. now apply Hx.
Qed.

Lemma summary_prints_iff_numeric_example :
  fst (run (sample_env (Some (message quoted_confidence_object)) true)
         empty_state ["AAPL"])
  = Return [success_entry "AAPL" (JString "BUY") (JString "0.8")]
  /\ ~ (exists lines,
          print_summary
            (sample_env (Some (message quoted_confidence_object)) true)
            [success_entry "AAPL" (JString "BUY") (JString "0.8")]
          = Return lines).
Proof.
  split; [vm_compute; reflexivity|].
  assert (Hrun : run (sample_env (Some (message quoted_confidence_object))
                        true) empty_state ["AAPL"]
                 = (Return [success_entry "AAPL" (JString "BUY")
                              (JString "0.8")],
                    snd (run (sample_env
                                (Some (message quoted_confidence_object))
                                true) empty_state ["AAPL"])))
    by (vm_compute; reflexivity).
  intros H.
  apply (proj1 (summary_prints_iff_numeric _ _ _ _ _ Hrun)) in H.
  inversion H as [|x y Hx Hy]. specialize (Hx _ eq_refl). discriminate.
Defined.

(** ** The lines of the prompt *)

Lemma prefix_append (a t y : string) :
  prefix a t = true -> prefix a (t ++ y) = true.
Proof.
  revert t. induction a as [|c a IH]; intros t H;
    [destruct t; [destruct y|]; reflexivity|].
  destruct t as [|d t]; [discriminate|]. simpl in *.
  destruct (ascii_dec c d); [auto|discriminate].
Qed.

Lemma contains_append (sub t y : string) :
  Str.contains sub t = true -> Str.contains sub (t ++ y) = true.
Proof.
  induction t as [|c t IH]; intros H.
  - simpl in H. rewrite orb_false_r in H.
    destruct sub; [|discriminate]. now destruct y.
  - cbn [Str.contains] in H. apply orb_true_iff in H as [H|H].
    + cbn [append Str.contains]. apply orb_true_iff. left.
      exact (prefix_append sub (String c t) y H).
    + cbn [append Str.contains]. rewrite (IH H). apply orb_true_r.
Qed.

Lemma contains_prepend (sub x t : string) :
  Str.contains sub t = true -> Str.contains sub (x ++ t) = true.
Proof.
  intros H. induction x as [|c x IH]; [exact H|].
  cbn [append Str.contains]. rewrite IH. apply orb_true_r.
Qed.

Lemma contains_refl (s : string) : Str.contains s s = true.
Proof.
  pose proof (contains_app "" s "") as H. cbn [append] in H.
  destruct s as [|c s]; [reflexivity|].
  cbn [Str.contains]. apply orb_true_iff. left.
  apply prefix_correct. cbn [String.length].
  pose proof (substring_head (String c s) "") as E.
  assert (A : String c s ++ "" = String c s).
  { clear. induction (String c s) as [|d u IH]; simpl; congruence. }
  now rewrite A in E.
Qed.

(** A text of the list is part of the joined text. *)
Lemma join_contains sep lines line :
  In line lines -> Str.contains line (Str.join sep lines) = true.
Proof.
  induction lines as [|p ps IH]; intros H; [contradiction|].
  destruct ps as [|q ps'].
  - destruct H as [->|[]]. apply contains_refl.
  - change (Str.join sep (p :: q :: ps'))
      with (p ++ sep ++ Str.join sep (q :: ps')).
    destruct H as [->|H].
    + apply contains_append, contains_refl.
    + rewrite <- append_assoc. apply contains_prepend. auto.
Qed.

Lemma news_text_lines env n news :
  news_text env (n :: news)
  = Str.join nl (map (news_line env) (n :: news)).
Proof.
  unfold news_text. cbn [map].
  destruct (map (news_line env) news); reflexivity.
Qed.

(** X13: the prompt holds the line of every article it is given and the
    line of every historical prediction; a historical line carries at
    most the first 10 characters of the timestamp and the first 80 of
    the reasoning, so its length is bounded by 115 plus the lengths of
    the signal and of the printed confidence. *)
Theorem prompt_holds_every_line env ticker news historical :
  (forall n, In n news ->
             Str.contains (news_line env n)
               (prompt env ticker news historical) = true)
  /\ (forall h, In h historical ->
                Str.contains (historical_line env h)
                  (prompt env ticker news historical) = true)
  /\ forall h,
       String.length (historical_line env h)
       <= 115 + String.length (row_signal h)
          + String.length (str_float env (row_confidence h)).
Proof.
  split; [|split].
  - intros n Hn. unfold prompt.
    apply contains_prepend, contains_prepend, contains_prepend,
      contains_prepend, contains_prepend, contains_prepend,
      contains_prepend, contains_append.
    destruct news as [|n0 news]; [contradiction|].
    rewrite news_text_lines. apply join_contains. now apply in_map.
  - intros h Hh. unfold prompt.
    do 12 apply contains_prepend. apply contains_append.
    destruct historical as [|h0 hs]; [contradiction|].
    unfold historical_text. apply join_contains. now apply in_map.
  - intros h. unfold historical_line, Str.take.
    rewrite !string_length_app.
    assert (Hs : forall n s, String.length (substring 0 n s) <= n).
    { induction n as [|n IH]; intros [|c s]; simpl; try lia.
      specialize (IH s). lia. }
    pose proof (Hs 10 (row_created_at h)).
    pose proof (Hs 80 (row_reasoning h)).
    cbn [String.length]. lia.
Qed.
